(** * minder_utils.download.Downloader: export, polling and refresh

    A shallow embedding of [src/minder_utils/download/download.py].
    The Python methods are written as functions in a small state-and-error
    monad over a [World] that holds the local file system and the history
    of everything the client did (HTTP requests, sleeps, failure reports
    on the console, file accesses).  The Minder server and the pandas date parser
    are parameters of the development. *)

From Stdlib Require Import ZArith String Ascii List Lia.
From stdpp Require Import base option list gmap strings.

Set Warnings "-clear-no-such-hyp".

Open Scope string_scope.
Open Scope list_scope.

(** ** Python values used by the downloader *)

(** Exceptions the modelled code can raise. *)
Inductive exn :=
| TypeError (msg : string)
| KeyError (key : string)
| IndexError
| UnboundLocalError (name : string)
| ValueError (msg : string)
| EmptyDataError
| FileNotFoundError (path : string)
| EOFError.

(** The fields of a [pd.Timestamp] that [strftime] prints. *)
Record Timestamp := {
  year : nat; month : nat; day : nat;
  hour : nat; minute : nat; second : nat
}.

(** An argument accepted by [pd.to_datetime]: text, or a timestamp
    (which [pd.to_datetime] returns as it is). *)
Inductive datelike :=
| DateStr (s : string)
| DateTs (t : Timestamp).

(** JSON values of the export payload: a string, or the [datasets]
    object, which maps each of its keys to the empty object [{}] and is
    held as the list of its keys in insertion order. *)
Inductive json :=
| JStr (s : string)
| JDatasets (names : list string).

(** The [categories] argument of [export] and [refresh]: [None], one
    string, or a list of strings. *)
Inductive categories_arg :=
| CatNone
| CatStr (s : string)
| CatList (l : list string).

(** A CSV text, split into lines and fields.  [pd.read_csv] takes the
    first line as the column names. *)
Abbreviation csv := (list (list string)).

Record DataFrame := { columns : list string; rows : list (list string) }.

(** The body of [GET <job location>]: [response['id']] and
    [response['status']]. *)
Record job_status := { reply_id : string; reply_status : Z }.

(** One entry of [job['jobRecord']['output']]. *)
Record output_record := { rec_type : string; rec_url : string }.

(** One element of the [GET export] listing. *)
Record job := { job_id : string; job_output : list output_record }.

(** A [requests] response to the retrieval of one output. *)
Record http_response := { status_code : Z; text : csv }.

(** ** The world *)

Inductive event :=
| GetInfo
| PostExport (body : gmap string json)
| GetJob (url : string) (reply : job_status)
| GetExports
| GetOutput (url : string)
| Sleep (seconds : nat)
| PrintRequestFailed (category : option string)
| PrintFail (code : Z) (category : option string)
| StatFile (path : string)
| ReadFile (path : string)
| AppendFile (path : string) (header : bool).

(** [files] maps a path to the text of the file; [history] lists what the
    client did, most recent event first. *)
Record World := { files : gmap string csv; history : list event }.

Definition record_event (e : event) (w : World) : World :=
  {| files := files w; history := e :: history w |}.

(** The server, as the client sees it. *)
Record Server := {
  (** [get_info()['Categories']]: measurement group -> dataset names. *)
  categories_doc : list (string * list string);
  (** The [Content-Location] header answered to the n-th [POST export]
      (counting from 0) for a given body, if there is one. *)
  content_location : nat -> gmap string json -> option string;
  (** The body answered to the k-th [GET] (counting from 0) of a job
      location. *)
  job_reply : string -> nat -> job_status;
  (** The listing answered to [GET export]. *)
  export_jobs : list job;
  (** The response to the retrieval of an output url. *)
  output_reply : string -> http_response
}.

(** ** The monad: state, exceptions, and fuel for the [while] loops

    [Returns a w] is a normal return, [Raises e w] an uncaught exception,
    and [OutOfFuel w] a [while] loop that was cut after the allotted number
    of iterations; each carries the world reached. *)

Inductive outcome (A : Type) :=
| Returns (a : A) (w : World)
| Raises (e : exn) (w : World)
| OutOfFuel (w : World).
Arguments Returns {A} a w.
Arguments Raises {A} e w.
Arguments OutOfFuel {A} w.

Definition py (A : Type) : Type := World -> outcome A.

Definition ret {A} (a : A) : py A := fun w => Returns a w.
Definition raise {A} (e : exn) : py A := fun w => Raises e w.
Definition bind {A B} (m : py A) (k : A -> py B) : py B :=
  fun w =>
    match m w with
    | Returns a w' => k a w'
    | Raises e w' => Raises e w'
    | OutOfFuel w' => OutOfFuel w'
    end.

(** The world in which a computation stopped. *)
Definition world_of {A} (o : outcome A) : World :=
  match o with
  | Returns _ w | Raises _ w | OutOfFuel w => w
  end.

Declare Scope py_scope.
Delimit Scope py_scope with py.
Notation "x <- m ;; k" := (bind m (fun x => k))
  (at level 100, m at next level, right associativity) : py_scope.
Notation "m ;;; k" := (bind m (fun _ => k))
  (at level 100, right associativity) : py_scope.
Open Scope py_scope.

Definition emit (e : event) : py unit := fun w => Returns tt (record_event e w).

(** [d[k]] on a dict held as a finite map. *)
Definition getitem {V} (d : gmap string V) (k : string) : py V :=
  match d !! k with
  | Some v => ret v
  | None => raise (KeyError k)
  end.

(** ** Counting in the history *)

(** Number of status requests already sent to a job location. *)
Fixpoint polls (url : string) (h : list event) : nat :=
  match h with
  | [] => 0
  | GetJob u _ :: h' => if decide (u = url) then S (polls url h') else polls url h'
  | _ :: h' => polls url h'
  end.

(** Number of export submissions already posted. *)
Fixpoint posts (h : list event) : nat :=
  match h with
  | [] => 0
  | PostExport _ :: h' => S (posts h')
  | _ :: h' => posts h'
  end.

(** Number of sleeps between polling rounds. *)
Fixpoint sleeps (h : list event) : nat :=
  match h with
  | [] => 0
  | Sleep _ :: h' => S (sleeps h')
  | _ :: h' => sleeps h'
  end.

Definition is_request (e : event) : bool :=
  match e with
  | GetInfo | PostExport _ | GetJob _ _ | GetExports | GetOutput _ => true
  | _ => false
  end.

(** ** Dates *)

Definition digit (n : nat) : ascii := ascii_of_nat (48 + n mod 10).
Definition pad2 (n : nat) : string :=
  String (digit (n / 10)) (String (digit n) EmptyString).
Definition pad4 (n : nat) : string :=
  String (digit (n / 1000)) (String (digit (n / 100)) (pad2 n)).

(** [t.strftime('%Y-%m-%dT%H:%M:%S.000Z')]. *)
Definition strftime (t : Timestamp) : string :=
  pad4 (year t) +:+ "-" +:+ pad2 (month t) +:+ "-" +:+ pad2 (day t) +:+ "T" +:+
  pad2 (hour t) +:+ ":" +:+ pad2 (minute t) +:+ ":" +:+ pad2 (second t) +:+ ".000Z".

(** ** Paths *)

Definition startswith_sep (s : string) : bool :=
  match s with
  | String c _ => if decide (c = "/"%char) then true else false
  | EmptyString => false
  end.

Fixpoint endswith_sep (s : string) : bool :=
  match s with
  | EmptyString => false
  | String c EmptyString => if decide (c = "/"%char) then true else false
  | String _ s' => endswith_sep s'
  end.

(** [os.path.join(a, b)] (posixpath). *)
Definition os_path_join (a b : string) : string :=
  if startswith_sep b then b
  else if decide (a = "") then a +:+ b
  else if endswith_sep a then a +:+ b
  else a +:+ "/" +:+ b.

(** ** Data frames *)

(** [pd.read_csv(io.StringIO(text))]: the first line names the columns. *)
Definition read_csv (t : csv) : py DataFrame :=
  match t with
  | [] => raise EmptyDataError
  | cols :: body => ret {| columns := cols; rows := body |}
  end.

(** Position of a column name among the columns. *)
Fixpoint column_index (name : string) (cols : list string) : option nat :=
  match cols with
  | [] => None
  | c :: cols' =>
      if decide (c = name) then Some 0
      else S <$> column_index name cols'
  end.

(** The field of a line under a column; a short line reads as empty. *)
Definition field (i : nat) (line : list string) : string := nth i line "".

(** [df[['start_date', 'id']]]: the positions of the two key columns. *)
Definition key_columns (df : DataFrame) : py (nat * nat) :=
  match column_index "start_date" (columns df) with
  | None => raise (KeyError "start_date")
  | Some i =>
      match column_index "id" (columns df) with
      | None => raise (KeyError "id")
      | Some j => ret (i, j)
      end
  end.

Definition row_key (ij : nat * nat) (line : list string) : string * string :=
  (field (fst ij) line, field (snd ij) line).

(** [df[['start_date', 'id']].iloc[0, :]]. *)
Definition first_key (df : DataFrame) : py (string * string) :=
  ij <- key_columns df ;;
  match rows df with
  | [] => raise IndexError
  | r :: _ => ret (row_key ij r)
  end.

(** [df[['start_date', 'id']].iloc[-1, :]]. *)
Definition last_key (df : DataFrame) : py (string * string) :=
  ij <- key_columns df ;;
  match last (rows df) with
  | None => raise IndexError
  | Some r => ret (row_key ij r)
  end.

(** [np.all(a == b)] on two (start_date, id) pairs. *)
Definition key_eqb (a b : string * string) : bool :=
  bool_decide (a.1 = b.1) && bool_decide (a.2 = b.2).

(** ** File system *)

Definition path_exists (p : string) : py bool :=
  fun w => Returns (bool_decide (is_Some (files w !! p))) (record_event (StatFile p) w).

(** [pd.read_csv(path)]. *)
Definition read_csv_file (p : string) : py DataFrame :=
  fun w =>
    match files w !! p with
    | None => Raises (FileNotFoundError p) w
    | Some t => read_csv t (record_event (ReadFile p) w)
    end.

(** [df.to_csv(path, mode='a', header=h)]: the lines are added at the end
    of the file, which is created when it does not exist.  The column of
    row labels that pandas writes in front of each line is left out. *)
Definition to_csv (df : DataFrame) (p : string) (header : bool) : py unit :=
  fun w =>
    let old := default [] (files w !! p) in
    let new := (if header then [columns df] else []) ++ rows df in
    Returns tt {| files := <[p := old ++ new]> (files w);
                  history := AppendFile p header :: history w |}.

(** ** Dicts that are iterated: keys in insertion order *)

Definition odict (V : Type) : Type := list (string * V).

Fixpoint odict_get {V} (d : odict V) (k : string) : option V :=
  match d with
  | [] => None
  | (k', v) :: d' => if decide (k' = k) then Some v else odict_get d' k
  end.

(** [d[k] = v]: an existing key keeps its position. *)
Fixpoint odict_set {V} (k : string) (v : V) (d : odict V) : odict V :=
  match d with
  | [] => [(k, v)]
  | (k', v') :: d' =>
      if decide (k' = k) then (k', v) :: d' else (k', v') :: odict_set k v d'
  end.

Definition odict_keys {V} (d : odict V) : list string := d.*1.

(** [s in t] on two strings. *)
Fixpoint is_substring (s t : string) : bool :=
  String.prefix s t ||
  match t with
  | EmptyString => false
  | String _ t' => is_substring s t'
  end.

(** * The Downloader *)

Section Downloader.

(** [pd.to_datetime] on text; [None] stands for its [ValueError]. *)
Variable parse_datetime : string -> option Timestamp.

Variable srv : Server.

Definition to_datetime (date : datelike) : py Timestamp :=
  match date with
  | DateTs t => ret t
  | DateStr s =>
      match parse_datetime s with
      | Some t => ret t
      | None => raise (ValueError s)
      end
  end.

(** [Downloader.convert_to_ISO]. *)
Definition convert_to_ISO (date : datelike) : py string :=
  date <- to_datetime date ;;
  ret (strftime date).

(** ** Requests *)

(** [self.get_info()['Categories']], for a server that answers its
    catalog document. *)
Definition get_info : py (odict (list string)) :=
  emit GetInfo ;;; ret (categories_doc srv).

(** [requests.post(self.url + 'export', ...).headers]: the
    [Content-Location] header, if the response has one. *)
Definition post_export (export_keys : gmap string json) : py (option string) :=
  fun w =>
    Returns (content_location srv (posts (history w)) export_keys)
            (record_event (PostExport export_keys) w).

(** [schedule_job.headers['Content-Location']]. *)
Definition content_location_of (headers : option string) : py string :=
  match headers with
  | Some url => ret url
  | None => raise (KeyError "Content-Location")
  end.

(** [requests.get(job_id, ...).json()]. *)
Definition get_job (url : string) : py job_status :=
  fun w =>
    let response := job_reply srv url (polls url (history w)) in
    Returns response (record_event (GetJob url response) w).

(** [requests.get(self.url + 'export', ...).json()]. *)
Definition get_exports : py (list job) :=
  emit GetExports ;;; ret (export_jobs srv).

(** [requests.get(record['url'], ...)]. *)
Definition get_output (url : string) : py http_response :=
  emit (GetOutput url) ;;; ret (output_reply srv url).

(** [progress_spinner(t, ...)] waits for [t] seconds. *)
Definition progress_spinner (t : nat) : py unit := emit (Sleep t).

(** [Downloader.get_category_names]. *)
Definition get_category_names (measurement_name : string) : py (list string) :=
  if decide (measurement_name = "all") then
    info <- get_info ;;
    ret (concat info.*2)
  else
    info <- get_info ;;
    match odict_get info measurement_name with
    | Some value => ret value
    | None => raise (KeyError measurement_name)
    end.

(** ** Building the payload *)

(** [if bound is not None: export_keys[name] = self.convert_to_ISO(bound)]. *)
Definition set_bound (name : string) (bound : option datelike)
    (export_keys : gmap string json) : py (gmap string json) :=
  match bound with
  | None => ret export_keys
  | Some date =>
      iso <- convert_to_ISO date ;;
      ret (<[name := JStr iso]> export_keys)
  end.

(** [category in categories or categories == 'all']. *)
Definition selected (category : string) (categories : categories_arg) : py bool :=
  match categories with
  | CatNone => raise (TypeError "argument of type 'NoneType' is not iterable")
  | CatStr s => ret (is_substring category s || bool_decide (s = "all"))
  | CatList l => ret (bool_decide (category ∈ l))
  end.

(** [datasets[category] = {}]. *)
Definition add_dataset (category : string) (datasets : list string) : list string :=
  if bool_decide (category ∈ datasets) then datasets else datasets ++ [category].

(** The inner loop [for category in info[key]] of [_export_request]. *)
Fixpoint select_group (group : list string) (categories : categories_arg)
    (datasets : list string) : py (list string) :=
  match group with
  | [] => ret datasets
  | category :: group' =>
      chosen <- selected category categories ;;
      select_group group' categories
        (if chosen then add_dataset category datasets else datasets)
  end.

(** The outer loop [for key in info]. *)
Fixpoint select_datasets (info : odict (list string)) (categories : categories_arg)
    (datasets : list string) : py (list string) :=
  match info with
  | [] => ret datasets
  | (_, group) :: info' =>
      datasets <- select_group group categories datasets ;;
      select_datasets info' categories datasets
  end.

(** Lines 83-92 of [_export_request]: the payload. *)
Definition request_keys (categories : categories_arg)
    (since until : option datelike) : py (gmap string json) :=
  let export_keys : gmap string json := {[ "datasets" := JDatasets [] ]} in
  export_keys <- set_bound "since" since export_keys ;;
  export_keys <- set_bound "until" until export_keys ;;
  info <- get_info ;;
  datasets <- select_datasets info categories [] ;;
  ret (<["datasets" := JDatasets datasets]> export_keys).

(** The [while waiting] loop of [_export_request]. *)
Fixpoint wait_for_job (fuel : nat) (job_id : string) (response : job_status) : py unit :=
  match fuel with
  | O => fun w => OutOfFuel w
  | S fuel' =>
      if decide (reply_status response = 202%Z) then
        response <- get_job job_id ;;
        progress_spinner 30 ;;;
        wait_for_job fuel' job_id response
      else if decide (reply_status response = 500%Z) then
        emit (PrintRequestFailed None)
      else
        ret tt
  end.

(** [Downloader._export_request]. *)
Definition _export_request (fuel : nat) (categories : categories_arg)
    (since until : option datelike) : py unit :=
  export_keys <- request_keys categories since until ;;
  schedule_job <- post_export export_keys ;;
  job_id <- content_location_of schedule_job ;;
  response <- get_job job_id ;;
  wait_for_job fuel job_id response.

(** ** Parallel export *)

(** The validation loop of [_export_request_parallel] (lines 140-142). *)
Fixpoint check_available (categories_list available : list string) : py unit :=
  match categories_list with
  | [] => ret tt
  | category :: rest =>
      if bool_decide (category ∈ available) then check_available rest available
      else raise (TypeError ("Category " +:+ category +:+
                             " is not available to download. Please check the name."))
  end.

(** [export_dict[category]]. *)
Definition bounds_of (export_dict : odict (option datelike * option datelike))
    (category : string) : py (option datelike * option datelike) :=
  match odict_get export_dict category with
  | Some bounds => ret bounds
  | None => raise (KeyError category)
  end.

(** Lines 149-155: the payload of one category. *)
Definition category_keys (category : string)
    (since until : option datelike) : py (gmap string json) :=
  let export_keys : gmap string json := {[ "datasets" := JDatasets [category] ]} in
  export_keys <- set_bound "since" since export_keys ;;
  set_bound "until" until export_keys.

(** Lines 147-157: one payload per category. *)
Fixpoint build_export_key_list (export_dict : odict (option datelike * option datelike))
    (categories_list : list string)
    (export_key_list : gmap string (gmap string json))
    : py (gmap string (gmap string json)) :=
  match categories_list with
  | [] => ret export_key_list
  | category :: rest =>
      bounds <- bounds_of export_dict category ;;
      export_keys <- category_keys category bounds.1 bounds.2 ;;
      build_export_key_list export_dict rest (<[category := export_keys]> export_key_list)
  end.

(** Lines 160-167: one submission per category. *)
Fixpoint schedule_jobs (categories_list : list string)
    (export_key_list : gmap string (gmap string json))
    (request_url_dict : gmap string string) : py (gmap string string) :=
  match categories_list with
  | [] => ret request_url_dict
  | category :: rest =>
      export_keys <- getitem export_key_list category ;;
      schedule_job <- post_export export_keys ;;
      request_url <- content_location_of schedule_job ;;
      schedule_jobs rest export_key_list (<[category := request_url]> request_url_dict)
  end.

(** The two dicts the polling loop updates. *)
Record polling := {
  waiting_for : gmap string bool;
  job_id_dict : gmap string string
}.

(** [{category: True for category in categories_list}] and [{}]. *)
Definition polling_init (categories_list : list string) : polling :=
  {| waiting_for := list_to_map ((λ category, (category, true)) <$> categories_list);
     job_id_dict := ∅ |}.

(** One pass of [for category in categories_list] (lines 174-192). *)
Fixpoint poll_round (request_url_dict : gmap string string)
    (categories_list : list string) (st : polling) : py polling :=
  match categories_list with
  | [] => ret st
  | category :: rest =>
      waiting <- getitem (waiting_for st) category ;;
      if negb waiting then poll_round request_url_dict rest st
      else
        request_url <- getitem request_url_dict category ;;
        response <- get_job request_url ;;
        let ids := <[category := reply_id response]> (job_id_dict st) in
        if decide (reply_status response = 202%Z) then
          poll_round request_url_dict rest
            {| waiting_for := <[category := true]> (waiting_for st); job_id_dict := ids |}
        else if decide (reply_status response = 500%Z) then
          emit (PrintRequestFailed (Some category)) ;;;
          poll_round request_url_dict rest
            {| waiting_for := <[category := false]> (waiting_for st); job_id_dict := ids |}
        else
          poll_round request_url_dict rest
            {| waiting_for := <[category := false]> (waiting_for st); job_id_dict := ids |}
  end.

(** [True in list(waiting_for.values())]. *)
Definition still_waiting (st : polling) : bool :=
  bool_decide (true ∈ (map_to_list (waiting_for st)).*2).

(** The [while waiting] loop (lines 173-202) and [return job_id_dict]. *)
Fixpoint poll_jobs (fuel : nat) (request_url_dict : gmap string string)
    (categories_list : list string) (st : polling) : py (gmap string string) :=
  match fuel with
  | O => fun w => OutOfFuel w
  | S fuel' =>
      st <- poll_round request_url_dict categories_list st ;;
      if still_waiting st then
        progress_spinner 30 ;;;
        poll_jobs fuel' request_url_dict categories_list st
      else
        ret (job_id_dict st)
  end.

(** [Downloader._export_request_parallel]. *)
Definition _export_request_parallel (fuel : nat)
    (export_dict : odict (option datelike * option datelike))
    : py (gmap string string) :=
  let categories_list := odict_keys export_dict in
  available_categories_list <- get_category_names "all" ;;
  check_available categories_list available_categories_list ;;;
  export_key_list <- build_export_key_list export_dict categories_list ∅ ;;
  request_url_dict <- schedule_jobs categories_list export_key_list ∅ ;;
  poll_jobs fuel request_url_dict categories_list (polling_init categories_list).

(** ** Export *)

(** [df.to_csv(path, mode='a', header=not Path(path).exists())]. *)
Definition append_csv (df : DataFrame) (path : string) : py unit :=
  there <- path_exists path ;;
  to_csv df path (negb there).

(** The download loop of [export] (lines 273-283). *)
Fixpoint export_records (save_path : string) (output : list output_record) : py unit :=
  match output with
  | [] => ret tt
  | record :: rest =>
      content <- get_output (rec_url record) ;;
      (if decide (status_code content ≠ 200%Z) then
         emit (PrintFail (status_code content) None)
       else
         df <- read_csv (text content) ;;
         append_csv df (save_path +:+ rec_type record +:+ ".csv")) ;;;
      export_records save_path rest
  end.

(** [int(input(...))] until the answer is in [range(n)] (lines 268-271);
    [answers] are the integers typed on the console. *)
Fixpoint ask_index (n : nat) (answers : list Z) : py nat :=
  match answers with
  | [] => raise EOFError
  | a :: answers' =>
      if decide (0 ≤ a < Z.of_nat n)%Z then ret (Z.to_nat a) else ask_index n answers'
  end.

(** [Downloader.export].  The creation of the target directory is not
    modelled. *)
Definition export (fuel : nat) (since until : option datelike) (reload : bool)
    (categories : categories_arg) (save_path : string) (answers : list Z) : py unit :=
  (if reload then _export_request fuel categories since until else ret tt) ;;;
  data <- get_exports ;;
  chosen <- (if negb reload && bool_decide (1 < length data)
             then idx <- ask_index (length data) answers ;; ret (data !! idx)
             else ret (last data)) ;;
  match chosen with
  | None => raise IndexError
  | Some job => export_records save_path (job_output job)
  end.

(** ** Refresh *)

(** The loop over the saved files (lines 320-331). *)
Fixpoint check_current_files (until : option datelike) (save_path : string)
    (categories : list string)
    (export_dict : odict (option datelike * option datelike))
    (last_rows : gmap string (string * string))
    : py (odict (option datelike * option datelike) * gmap string (string * string)) :=
  match categories with
  | [] => ret (export_dict, last_rows)
  | category :: rest =>
      let file_path := os_path_join save_path category in
      there <- path_exists (file_path +:+ ".csv") ;;
      if negb there then
        check_current_files until save_path rest
          (odict_set category (None, until) export_dict) last_rows
      else
        data <- read_csv_file (file_path +:+ ".csv") ;;
        key <- last_key data ;;
        since <- to_datetime (DateStr key.1) ;;
        check_current_files until save_path rest
          (odict_set category (Some (DateTs since), until) export_dict)
          (<[category := key]> last_rows)
  end.

(** [for previous_job in data[::-1]: if previous_job['id'] == job_id: ...]
    (lines 339-342); [output] keeps its previous value when no job matches. *)
Definition find_output (data : list job) (job : string)
    (output : option (list output_record)) : option (list output_record) :=
  match find (λ previous_job, bool_decide (job_id previous_job = job)) (rev data) with
  | Some previous_job => Some (job_output previous_job)
  | None => output
  end.

(** [df.iloc[1:, :].reset_index(drop=True)]. *)
Definition drop_first (df : DataFrame) : DataFrame :=
  {| columns := columns df; rows := tail (rows df) |}.

(** Lines 349-357: the merge of one retrieved chunk. *)
Definition merge_chunk (save_path : string) (last_rows : gmap string (string * string))
    (category : string) (content : http_response) : py unit :=
  current_data <- read_csv (text content) ;;
  first <- first_key current_data ;;
  anchor <- getitem last_rows category ;;
  if key_eqb first anchor then
    append_csv (drop_first current_data) (save_path +:+ category +:+ ".csv")
  else
    append_csv current_data (save_path +:+ category +:+ ".csv").

(** The loop over the chunks of one category (lines 344-357). *)
Fixpoint refresh_chunks (save_path : string) (last_rows : gmap string (string * string))
    (category : string) (output : list output_record) : py unit :=
  match output with
  | [] => ret tt
  | data_chunk :: rest =>
      content <- get_output (rec_url data_chunk) ;;
      (if decide (status_code content ≠ 200%Z) then
         emit (PrintFail (status_code content) (Some category))
       else
         merge_chunk save_path last_rows category content) ;;;
      refresh_chunks save_path last_rows category rest
  end.

(** The loop over the categories (lines 337-357). *)
Fixpoint refresh_categories (save_path : string) (last_rows : gmap string (string * string))
    (job_id_dict : gmap string string) (data : list job)
    (categories : list string) (output : option (list output_record)) : py unit :=
  match categories with
  | [] => ret tt
  | category :: rest =>
      job <- getitem job_id_dict category ;;
      match find_output data job output with
      | None => raise (UnboundLocalError "output")
      | Some chunks =>
          refresh_chunks save_path last_rows category chunks ;;;
          refresh_categories save_path last_rows job_id_dict data rest (Some chunks)
      end
  end.

(** Lines 316-361 of [refresh], once [categories] is a list. *)
Definition refresh_list (fuel : nat) (until : option datelike)
    (categories : list string) (save_path : string) : py unit :=
  scanned <- check_current_files until save_path categories [] ∅ ;;
  job_id_dict <- _export_request_parallel fuel scanned.1 ;;
  data <- get_exports ;;
  refresh_categories save_path scanned.2 job_id_dict data categories None.

(** [Downloader.refresh]. *)
Definition refresh (fuel : nat) (until : option datelike)
    (categories : categories_arg) (save_path : string) : py unit :=
  match categories with
  | CatNone => raise (TypeError "Please supply at least one category...")
  | CatStr s => refresh_list fuel until [s] save_path
  | CatList l => refresh_list fuel until l save_path
  end.

End Downloader.

(** * Observations used in the statements *)

(** The most recent answer received from a job location. *)
Fixpoint last_reply (url : string) (h : list event) : option job_status :=
  match h with
  | [] => None
  | GetJob u r :: h' => if decide (u = url) then Some r else last_reply url h'
  | _ :: h' => last_reply url h'
  end.

(** Number of "Request failed for category ..." reports about a category. *)
Fixpoint failure_reports (category : string) (h : list event) : nat :=
  match h with
  | [] => 0
  | PrintRequestFailed (Some c) :: h' =>
      if decide (c = category) then S (failure_reports category h')
      else failure_reports category h'
  | _ :: h' => failure_reports category h'
  end.

(** Number of writes to a path that put a header line. *)
Fixpoint header_writes (path : string) (h : list event) : nat :=
  match h with
  | [] => 0
  | AppendFile p true :: h' =>
      if decide (p = path) then S (header_writes path h') else header_writes path h'
  | _ :: h' => header_writes path h'
  end.

(** Number of requests of any kind. *)
Definition requests (h : list event) : nat := length (filter is_request h).

(** [w'] comes from [w] by appending to files only: a file that existed
    keeps its lines as a prefix and receives no header; a file that did not
    exist is either still absent or was created with one header write, its
    first line. *)
Definition appended (w w' : World) : Prop :=
  ∀ p,
    match files w !! p with
    | Some old =>
        (∃ more, files w' !! p = Some (old ++ more)) ∧
        header_writes p (history w') = header_writes p (history w)
    | None =>
        (files w' !! p = None ∧
         header_writes p (history w') = header_writes p (history w)) ∨
        ((∃ hdr more, files w' !! p = Some (hdr :: more)) ∧
         header_writes p (history w') = S (header_writes p (history w)))
    end.

(** Nothing was written: same files, same header writes. *)
Definition untouched (w w' : World) : Prop :=
  files w' = files w ∧ ∀ p, header_writes p (history w') = header_writes p (history w).

(** [m] relates the world it starts in to the world it stops in by [R]. *)
Definition keeps {A} (R : World → World → Prop) (m : py A) : Prop :=
  ∀ w, R w (world_of (m w)).

(** What the payload holds under a bound's key: nothing for [None], and
    for a date the text [pd.to_datetime(date).strftime(...)]. *)
Definition sent_bound (parse_datetime : string → option Timestamp)
    (bound : option datelike) (value : option json) : Prop :=
  match bound with
  | None => value = None
  | Some date =>
      ∃ t, (∀ w, to_datetime parse_datetime date w = Returns t w) ∧
           value = Some (JStr (strftime t))
  end.

(** The answers of a job location, counted from its [p]-th one, are
    [d] times 202 and then something else. *)
Definition first_terminal (srv : Server) (url : string) (p d : nat) : Prop :=
  (∀ k, k < d → reply_status (job_reply srv url (p + k)) = 202%Z) ∧
  reply_status (job_reply srv url (p + d)) ≠ 202%Z.

(** Number of polling rounds it takes until every category has its first
    answer other than 202, when category [c] gets it after [d c] answers
    202. *)
Definition rounds_needed (d : string → nat) (categories_list : list string) : nat :=
  1 `max` list_max ((λ c, S (d c)) <$> categories_list).

(** Distinct categories are tracked under distinct job locations. *)
Definition distinct_locations (request_url_dict : gmap string string)
    (categories_list : list string) : Prop :=
  ∀ c1 c2 u, c1 ∈ categories_list → c2 ∈ categories_list →
    request_url_dict !! c1 = Some u → request_url_dict !! c2 = Some u → c1 = c2.

(** One report is printed for a category whose first answer other than
    202 is 500. *)
Definition reports_due (srv : Server) (url : string) (p d : nat) : nat :=
  if decide (reply_status (job_reply srv url (p + d)) = 500%Z) then 1 else 0.

(** Where category [c] stands after [r] polling rounds started in history
    [h0], when its first answer other than 202 comes after [d c] answers
    202. *)
Definition cat_at (srv : Server) (request_url_dict : gmap string string)
    (h0 : list event) (d : string → nat) (r : nat) (c : string)
    (st : polling) (h : list event) : Prop :=
  ∃ u, request_url_dict !! c = Some u ∧
    first_terminal srv u (polls u h0) (d c) ∧
    waiting_for st !! c = Some (bool_decide (r <= d c)) ∧
    polls u h = polls u h0 + r `min` S (d c) ∧
    failure_reports c h =
      failure_reports c h0 + (if decide (d c < r) then reports_due srv u (polls u h0) (d c) else 0) ∧
    (0 < r →
     job_id_dict st !! c = Some (reply_id (job_reply srv u (polls u h0 + r `min` S (d c) - 1)))).

(** What a polling round leaves alone: the categories outside [todo], the
    job locations of no category in [todo], sleeps, submissions, files. *)
Definition round_frame (request_url_dict : gmap string string) (todo : list string)
    (st : polling) (w : World) (st' : polling) (w' : World) : Prop :=
  (∀ c, c ∉ todo →
     waiting_for st' !! c = waiting_for st !! c ∧
     job_id_dict st' !! c = job_id_dict st !! c ∧
     failure_reports c (history w') = failure_reports c (history w)) ∧
  (∀ u, (∀ c, c ∈ todo → request_url_dict !! c ≠ Some u) →
     polls u (history w') = polls u (history w)) ∧
  sleeps (history w') = sleeps (history w) ∧
  files w' = files w.

(** A job location whose last answer, if any, was 202. *)
Definition pending (url : string) (h : list event) : Prop :=
  ∀ r, last_reply url h = Some r → reply_status r = 202%Z.

(** What the polling loop maintains for any server: a location that is
    still pending belongs to a category that is still waited for; a
    category no longer waited for has a location; every category has an
    entry in [waiting_for]. *)
Definition poll_inv (request_url_dict : gmap string string)
    (categories_list : list string) (st : polling) (h : list event) : Prop :=
  (∀ c u, c ∈ categories_list → request_url_dict !! c = Some u → pending u h →
     ∃ c', c' ∈ categories_list ∧ request_url_dict !! c' = Some u ∧
           waiting_for st !! c' = Some true) ∧
  (∀ c, c ∈ categories_list → waiting_for st !! c = Some false →
     is_Some (request_url_dict !! c)) ∧
  (∀ c, c ∈ categories_list → is_Some (waiting_for st !! c)).

(** One call of a public method, with its arguments. *)
Inductive call :=
| CallExport (fuel : nat) (since until : option datelike) (reload : bool)
    (categories : categories_arg) (save_path : string) (answers : list Z)
| CallRefresh (fuel : nat) (until : option datelike)
    (categories : categories_arg) (save_path : string).

Definition run_call (parse_datetime : string → option Timestamp) (srv : Server)
    (c : call) : py unit :=
  match c with
  | CallExport fuel since until reload categories save_path answers =>
      export parse_datetime srv fuel since until reload categories save_path answers
  | CallRefresh fuel until categories save_path =>
      refresh parse_datetime srv fuel until categories save_path
  end.

(** The world after a series of calls, each starting where the previous
    one stopped, however it stopped. *)
Definition session (parse_datetime : string → option Timestamp) (srv : Server)
    (calls : list call) (w : World) : World :=
  fold_left (λ w c, world_of (run_call parse_datetime srv c w)) calls w.

(** The world after a retrieval that was answered with a failure code:
    the request and the report, nothing else. *)
Definition after_failure (srv : Server) (record : output_record)
    (category : option string) (w : World) : World :=
  record_event (PrintFail (status_code (output_reply srv (rec_url record))) category)
    (record_event (GetOutput (rec_url record)) w).

(** [w'] has the history of [w] and possibly more recent events. *)
Definition grows (w w' : World) : Prop := ∃ more, history w' = more ++ history w.

(** [m] raises only exceptions that satisfy [P]. *)
Definition raises_only {A} (P : exn → Prop) (m : py A) : Prop :=
  ∀ w e w', m w = Raises e w' → P e.

Definition not_type_error (e : exn) : Prop := ∀ msg, e ≠ TypeError msg.

(** The message of the TypeError of [_export_request_parallel]. *)
Definition not_available (category : string) : exn :=
  TypeError ("Category " +:+ category +:+
             " is not available to download. Please check the name.").

(** The status sequences [202, 202, complete] and [202, failed] of a job
    location, read from its [p]-th answer on. *)
Definition slow_success (srv : Server) (url : string) (p : nat) : Prop :=
  reply_status (job_reply srv url p) = 202%Z ∧
  reply_status (job_reply srv url (p + 1)) = 202%Z ∧
  reply_status (job_reply srv url (p + 2)) ≠ 202%Z ∧
  reply_status (job_reply srv url (p + 2)) ≠ 500%Z.

Definition quick_failure (srv : Server) (url : string) (p : nat) : Prop :=
  reply_status (job_reply srv url p) = 202%Z ∧
  reply_status (job_reply srv url (p + 1)) = 500%Z.

(** The length of the sequence of a category: 2 when its second answer is
    500, and 3 otherwise. *)
Definition sequence_length (srv : Server) (request_url_dict : gmap string string)
    (h : list event) (c : string) : nat :=
  match request_url_dict !! c with
  | Some u =>
      if decide (reply_status (job_reply srv u (polls u h + 1)) = 500%Z) then 2 else 3
  | None => 0
  end.

(** [key] is the (start_date, id) pair of the last line of the file that
    [refresh] reads for a category. *)
Definition anchor_in (fs : gmap string csv) (save_path category : string)
    (key : string * string) : Prop :=
  ∃ cols body last_row i j,
    fs !! (os_path_join save_path category +:+ ".csv") = Some (cols :: body) ∧
    last body = Some last_row ∧
    column_index "start_date" cols = Some i ∧
    column_index "id" cols = Some j ∧
    key = row_key (i, j) last_row.

(** Events other than a write leave the header count. *)
Definition quiet (e : event) : Prop :=
  match e with AppendFile _ _ => False | _ => True end.

(** * Sample data for the examples *)

Definition digit_value (c : ascii) : option nat :=
  let n := nat_of_ascii c in
  if ((48 <=? n) && (n <=? 57))%nat then Some (n - 48) else None.

Fixpoint number_of (s : string) (acc : nat) : option nat :=
  match s with
  | EmptyString => Some acc
  | String c s' =>
      match digit_value c with
      | Some v => number_of s' (10 * acc + v)
      | None => None
      end
  end.

Definition number_at (pos len : nat) (s : string) : option nat :=
  if decide (String.length (substring pos len s) = len)
  then number_of (substring pos len s) 0 else None.

(** A stand-in for [pd.to_datetime] on text, enough for the examples: it
    reads [YYYY-MM-DD] and, when present, [THH:MM:SS] after it. *)
Definition sample_parse (s : string) : option Timestamp :=
  y ← number_at 0 4 s; mo ← number_at 5 2 s; d ← number_at 8 2 s;
  if decide (String.length s ≤ 10)%nat then
    Some {| year := y; month := mo; day := d; hour := 0; minute := 0; second := 0 |}
  else
    h ← number_at 11 2 s; mi ← number_at 14 2 s; sec ← number_at 17 2 s;
    Some {| year := y; month := mo; day := d; hour := h; minute := mi; second := sec |}.

Definition empty_world : World := {| files := ∅; history := [] |}.

Definition pir : string := "raw_activity_pir".
Definition door : string := "raw_door_sensor".
Definition data_dir : string := "./data/raw_data/".
Definition header_line : list string := ["start_date"; "id"; "value"].

(** A server with the catalog [{activity: [raw_activity_pir], care:
    [raw_door_sensor]}] that gives the n-th submission the location
    [job/0n], answers the statuses [statuses url] one after the other to
    the requests for a location (and 200 once they are used up), with the
    location as job id. *)
Definition sample_server (statuses : string → list Z) (jobs : list job)
    (outputs : string → http_response) : Server :=
  {| categories_doc := [("activity", [pir]); ("care", [door])];
     content_location := λ n _, Some ("job/" +:+ pad2 n);
     job_reply := λ url k, {| reply_id := url; reply_status := nth k (statuses url) 200%Z |};
     export_jobs := jobs;
     output_reply := outputs |}.

Definition one_pending (url : string) : list Z := [202%Z].

(** One job per category, each with one output. *)
Definition sample_jobs : list job :=
  [ {| job_id := "job/00";
       job_output := [ {| rec_type := pir; rec_url := "out/pir" |} ] |};
    {| job_id := "job/01";
       job_output := [ {| rec_type := door; rec_url := "out/door" |} ] |} ].

(** The saved file of [raw_activity_pir] ends at
    [(2021-10-06T00:00:00.000Z, 42)]. *)
Definition pir_file : csv :=
  [ header_line;
    ["2021-10-05T00:00:00.000Z"; "41"; "1"];
    ["2021-10-06T00:00:00.000Z"; "42"; "1"] ].

Definition saved_world : World :=
  {| files := {[ data_dir +:+ pir +:+ ".csv" := pir_file ]}; history := [] |}.

(** The output of [raw_activity_pir] starts again at the last saved row. *)
Definition sample_outputs (url : string) : http_response :=
  if decide (url = "out/pir") then
    {| status_code := 200;
       text := [ header_line;
                 ["2021-10-06T00:00:00.000Z"; "42"; "1"];
                 ["2021-10-07T00:00:00.000Z"; "43"; "0"] ] |}
  else
    {| status_code := 200;
       text := [ header_line; ["2021-10-01T00:00:00.000Z"; "7"; "1"] ] |}.


(** A job of [raw_activity_pir] with two chunks; the retrieval of the
    second one fails. *)
Definition two_chunk_jobs : list job :=
  [ {| job_id := "job/00";
       job_output := [ {| rec_type := pir; rec_url := "out/pir" |};
                       {| rec_type := pir; rec_url := "out/pir/2" |} ] |} ].

Definition second_fails (url : string) : http_response :=
  if decide (url = "out/pir/2") then {| status_code := 503; text := [] |}
  else sample_outputs url.

(** Status sequences [202, 202, complete] for the first location and
    [202, failed] for the second. *)
Definition mixed_statuses (url : string) : list Z :=
  if decide (url = "job/00") then [202; 202; 200]%Z else [202; 500]%Z.

Definition failing_statuses (url : string) : list Z := [202; 500]%Z.
Definition completing_statuses (url : string) : list Z := [202; 202; 200]%Z.

Definition sample_urls : gmap string string :=
  {[ pir := "job/00"; door := "job/01" ]}.

Definition no_bounds : option datelike * option datelike := (None, None).

Definition first_chunk : output_record := {| rec_type := pir; rec_url := "out/pir" |}.
Definition second_chunk : output_record := {| rec_type := pir; rec_url := "out/pir/2" |}.

(** Category [raw_activity_pir] gets its final answer after two answers
    202, the other one after one. *)
Definition sample_delays (c : string) : nat := if decide (c = pir) then 2 else 1.

Definition two_exports : list call :=
  [ CallExport 2 None None true (CatList [pir]) data_dir [];
    CallExport 2 None None true (CatList [pir]) data_dir [] ].

Definition sample_anchor : string * string := ("2021-10-06T00:00:00.000Z", "42").

(** * More of the Downloader *)

(** [Downloader.get_group_names]. *)
Definition get_group_names (srv : Server) : py (list string) :=
  info <- get_info srv ;;
  ret info.*1.

(** [s] occurs inside [t]. *)
Definition occurs_in (s t : string) : Prop := ∃ pre post, t = pre +:+ s +:+ post.

(** [w'] has the history of [w] and, after it, only events that satisfy
    [P]. *)
Definition adds (P : event → Prop) (w w' : World) : Prop :=
  ∃ more, history w' = more ++ history w ∧ Forall P more.

(** Looking at a file. *)
Definition file_lookup (e : event) : Prop :=
  match e with StatFile _ | ReadFile _ => True | _ => False end.

(** What a download does: the job listing, the retrievals and their
    failure reports, and the writes with the lookups that precede them. *)
Definition download_step (e : event) : Prop :=
  match e with
  | GetExports | GetOutput _ | PrintFail _ _ | StatFile _ | AppendFile _ _ => True
  | _ => False
  end.

(** What scheduling and polling jobs does: the catalog, the submissions,
    the status requests, the sleeps and the failure reports. *)
Definition job_step (e : event) : Prop :=
  match e with
  | GetInfo | PostExport _ | GetJob _ _ | Sleep _ | PrintRequestFailed _ => True
  | _ => False
  end.

(** Number of "Request failed" reports of the single export. *)
Fixpoint single_failure_reports (h : list event) : nat :=
  match h with
  | [] => 0
  | PrintRequestFailed None :: h' => S (single_failure_reports h')
  | _ :: h' => single_failure_reports h'
  end.


(** What the scan of [refresh] holds for a category: without a saved file
    the job has no [since] and there is no anchor; with a saved file
    [since] is the timestamp of the start_date of its last line, and the
    anchor is the (start_date, id) pair of that line. *)
Definition scanned (parse_datetime : string → option Timestamp) (fs : gmap string csv)
    (until : option datelike) (save_path c : string)
    (entry : option (option datelike * option datelike))
    (anchor : option (string * string)) : Prop :=
  match fs !! (os_path_join save_path c +:+ ".csv") with
  | None => entry = Some (None, until) ∧ anchor = None
  | Some _ =>
      ∃ key t, anchor_in fs save_path c key ∧ parse_datetime key.1 = Some t ∧
               entry = Some (Some (DateTs t), until) ∧ anchor = Some key
  end.

(** What the polling loop maintains about [job_id_dict]: a category that
    is no longer waited for has a job id, only categories of the list
    have one, and every category has an entry in [waiting_for]. *)
Definition ids_inv (categories_list : list string) (st : polling) : Prop :=
  (∀ c, c ∈ categories_list → waiting_for st !! c = Some false →
     is_Some (job_id_dict st !! c)) ∧
  (∀ c, is_Some (job_id_dict st !! c) → c ∈ categories_list) ∧
  (∀ c, c ∈ categories_list → is_Some (waiting_for st !! c)).

(** Anything but a submission. *)
Definition not_a_post (e : event) : Prop :=
  match e with PostExport _ => False | _ => True end.

(** The datasets that a [categories] argument asks for: the members of a
    list; for a string, the names that occur inside it, and every name
    when it is 'all'. *)
Definition chosen (categories : categories_arg) (c : string) : Prop :=
  match categories with
  | CatNone => False
  | CatStr s => occurs_in c s ∨ s = "all"
  | CatList l => c ∈ l
  end.


(** ** More sample data *)

Definition plain_server : Server := sample_server one_pending [] sample_outputs.

Definition listing_server : Server := sample_server one_pending sample_jobs sample_outputs.


Definition pir_keys : gmap string json := {[ "datasets" := JDatasets [pir] ]}.

(** A listing in which the id of the first job comes again at the end. *)
Definition relisted_job : job :=
  {| job_id := "job/00";
     job_output := [ {| rec_type := pir; rec_url := "out/pir/2" |} ] |}.

Definition door_chunk : output_record := {| rec_type := door; rec_url := "out/door" |}.

Definition sample_timestamp : Timestamp :=
  {| year := 2021; month := 10; day := 6; hour := 0; minute := 0; second := 0 |}.

(** ** What a download leaves in a file *)

(** The texts retrieved with code 200 for the entries of a manifest that
    [export] writes to path [p], in manifest order. *)
Definition chunks_for (srv : Server) (save_path p : string)
    (output : list output_record) : list csv :=
  (λ record, text (output_reply srv (rec_url record))) <$>
  filter (λ record, status_code (output_reply srv (rec_url record)) = 200%Z ∧
                    save_path +:+ rec_type record +:+ ".csv" = p) output.

(** The texts retrieved with code 200 for the chunks of a category. *)
Definition retrieved (srv : Server) (output : list output_record) : list csv :=
  (λ record, text (output_reply srv (rec_url record))) <$>
  filter (λ record, status_code (output_reply srv (rec_url record)) = 200%Z) output.

(** A file after the chunks were appended to it: a file that exists
    receives the lines of every chunk but its column line; a file that does
    not exist starts with the column line of the first chunk. *)
Definition written (old : option csv) (chunks : list csv) : option csv :=
  match chunks with
  | [] => old
  | first :: _ => Some (from_option id (take 1 first) old ++ concat (drop 1 <$> chunks))
  end.

(** A chunk as [refresh] appends it: without its first row when that row
    carries the anchor. *)
Definition merged_text (anchor : string * string) (t : csv) : csv :=
  match t with
  | cols :: r :: rest =>
      match column_index "start_date" cols, column_index "id" cols with
      | Some i, Some j => if key_eqb (row_key (i, j) r) anchor then cols :: rest else t
      | _, _ => t
      end
  | _ => t
  end.

(** * Properties *)

(** ** The monad *)

Lemma bind_returns {A B} (m : py A) (k : A → py B) w a w1 :
  m w = Returns a w1 → bind m k w = k a w1.
Proof. intros H. unfold bind. by rewrite H. Qed.

Lemma bind_raises {A B} (m : py A) (k : A → py B) w e w1 :
  m w = Raises e w1 → bind m k w = Raises e w1.
Proof. intros H. unfold bind. by rewrite H. Qed.

Lemma bind_returns_inv {A B} (m : py A) (k : A → py B) w b w2 :
  bind m k w = Returns b w2 → ∃ a w1, m w = Returns a w1 ∧ k a w1 = Returns b w2.
Proof. unfold bind. destruct (m w) as [a w1|e w1|w1]; [eauto | done | done]. Qed.

Ltac bind_inv H :=
  let a := fresh "a" in
  let w := fresh "w" in
  let H1 := fresh H in
  apply bind_returns_inv in H as (a & w & H1 & H).

(** A relation that every step keeps is kept by their sequence. *)
Lemma keeps_bind {A B} (R : World → World → Prop) `{!PreOrder R}
    (m : py A) (k : A → py B) :
  keeps R m → (∀ a, keeps R (k a)) → keeps R (bind m k).
Proof.
  intros Hm Hk w. specialize (Hm w). unfold bind.
  destruct (m w) as [a w1|e w1|w1]; simpl in *; [|done..].
  etrans; [exact Hm | apply Hk].
Qed.

Lemma keeps_ret {A} (R : World → World → Prop) `{!Reflexive R} (a : A) :
  keeps R (ret a).
Proof. intros w. simpl. reflexivity. Qed.

Lemma keeps_raise {A} (R : World → World → Prop) `{!Reflexive R} e :
  keeps R (raise (A := A) e).
Proof. intros w. simpl. reflexivity. Qed.

Lemma keeps_getitem {V} (R : World → World → Prop) `{!Reflexive R}
    (d : gmap string V) k :
  keeps R (getitem d k).
Proof. unfold getitem. destruct (d !! k); [apply keeps_ret | apply keeps_raise]; done. Qed.

(** ** Files are only appended to *)

Lemma untouched_refl w : untouched w w.
Proof. by split. Qed.

Lemma untouched_trans w1 w2 w3 : untouched w1 w2 → untouched w2 w3 → untouched w1 w3.
Proof. intros [F1 H1] [F2 H2]. split; [congruence | intros p; by rewrite H2]. Qed.

#[local] Instance untouched_preorder : PreOrder untouched.
Proof. split; [exact untouched_refl | exact untouched_trans]. Qed.

Lemma appended_refl w : appended w w.
Proof.
  intros p. destruct (files w !! p) as [old|] eqn:E; [|by left].
  split; [|done]. exists []. by rewrite app_nil_r.
Qed.

Lemma appended_trans w1 w2 w3 : appended w1 w2 → appended w2 w3 → appended w1 w3.
Proof.
  intros H12 H23 p. specialize (H12 p). specialize (H23 p).
  destruct (files w1 !! p) as [old|] eqn:E1.
  - destruct H12 as [[more E2] Hh]. rewrite E2 in H23.
    destruct H23 as [[more' E3] Hh']. split; [|congruence].
    exists (more ++ more'). by rewrite app_assoc.
  - destruct H12 as [[E2 Hh]|[(hdr & more & E2) Hh]].
    + rewrite E2 in H23. destruct H23 as [[E3 Hh']|[E3 Hh']].
      * left. split; [done | congruence].
      * right. split; [done | congruence].
    + rewrite E2 in H23. destruct H23 as [[more' E3] Hh'].
      right. split; [|congruence]. exists hdr, (more ++ more'). by rewrite E3.
Qed.

#[local] Instance appended_preorder : PreOrder appended.
Proof. split; [exact appended_refl | exact appended_trans]. Qed.

Lemma untouched_appended w w' : untouched w w' → appended w w'.
Proof.
  intros [F H] p. rewrite F. destruct (files w !! p) as [old|]; [|by left].
  split; [|done]. exists []. by rewrite app_nil_r.
Qed.

Lemma keeps_untouched_appended {A} (m : py A) : keeps untouched m → keeps appended m.
Proof. intros H w. apply untouched_appended, H. Qed.

Lemma untouched_record e w : quiet e → untouched w (record_event e w).
Proof. intros He. split; [done|]. intros p. by destruct e. Qed.

Lemma keeps_emit e : quiet e → keeps untouched (emit e).
Proof. intros He w. by apply untouched_record. Qed.

Create HintDb keeps discriminated.

Ltac keeps_step :=
  lazymatch goal with
  | |- keeps _ (bind _ _) => apply keeps_bind; [apply _ | | intros ?]
  | |- keeps _ (ret _) => apply keeps_ret; apply _
  | |- keeps _ (raise _) => apply keeps_raise; apply _
  | |- keeps _ (getitem _ _) => apply keeps_getitem; apply _
  | |- keeps _ (emit _) => apply keeps_emit; exact I
  | |- keeps _ (match ?x with _ => _ end) => destruct x
  | |- keeps _ (let _ := _ in _) => cbv zeta
  end.

Ltac keeps_auto := repeat first [ solve [eauto with keeps] | keeps_step ].

Lemma keeps_read_csv t : keeps untouched (read_csv t).
Proof. unfold read_csv. keeps_auto. Qed.

Lemma keeps_key_columns df : keeps untouched (key_columns df).
Proof. unfold key_columns. keeps_auto. Qed.
#[local] Hint Resolve keeps_read_csv keeps_key_columns : keeps.

Lemma keeps_first_key df : keeps untouched (first_key df).
Proof. unfold first_key. keeps_auto. Qed.

Lemma keeps_last_key df : keeps untouched (last_key df).
Proof. unfold last_key. keeps_auto. Qed.

Lemma keeps_path_exists p : keeps untouched (path_exists p).
Proof. intros w. by apply untouched_record. Qed.

Lemma keeps_read_csv_file p : keeps untouched (read_csv_file p).
Proof.
  intros w. unfold read_csv_file. destruct (files w !! p) as [t|]; [|done].
  etrans; [apply (untouched_record (ReadFile p)); exact I | apply keeps_read_csv].
Qed.
#[local] Hint Resolve keeps_first_key keeps_last_key keeps_path_exists
  keeps_read_csv_file : keeps.

Lemma append_csv_run df path w :
  append_csv df path w =
  Returns tt
    {| files := <[path := default [] (files w !! path) ++
                          (if files w !! path is Some _ then [] else [columns df]) ++
                          rows df]> (files w);
       history := AppendFile path (negb (bool_decide (is_Some (files w !! path))))
                  :: StatFile path :: history w |}.
Proof.
  unfold append_csv, bind, path_exists, to_csv; simpl.
  destruct (files w !! path) as [old|]; reflexivity.
Qed.

Lemma keeps_append_csv df path : keeps appended (append_csv df path).
Proof.
  intros w p. rewrite append_csv_run; simpl.
  destruct (decide (path = p)) as [->|Hne].
  - rewrite lookup_insert_eq. destruct (files w !! p) as [old|] eqn:E; simpl.
    + split; [eauto | done].
    + right. split; [eauto | done].
  - rewrite lookup_insert_ne by done.
    destruct (negb _); (destruct (files w !! p) as [old|]; [|by left]);
      (split; [|done]); exists []; by rewrite app_nil_r.
Qed.
#[local] Hint Resolve keeps_append_csv : keeps.

Section Proofs.

Variable parse_datetime : string → option Timestamp.
Variable srv : Server.

(** ** Requests leave the files alone *)

Lemma keeps_out_of_fuel {A} (R : World → World → Prop) `{!Reflexive R} :
  keeps R (λ w, OutOfFuel (A := A) w).
Proof. intros w. simpl. reflexivity. Qed.

Lemma keeps_post_export keys : keeps untouched (post_export srv keys).
Proof. intros w. by apply untouched_record. Qed.

Lemma keeps_get_job url : keeps untouched (get_job srv url).
Proof. intros w. by apply untouched_record. Qed.

Lemma keeps_get_info : keeps untouched (get_info srv).
Proof. unfold get_info. keeps_auto. Qed.

Lemma keeps_get_exports : keeps untouched (get_exports srv).
Proof. unfold get_exports. keeps_auto. Qed.

Lemma keeps_get_output url : keeps untouched (get_output srv url).
Proof. unfold get_output. keeps_auto. Qed.

Lemma keeps_progress_spinner t : keeps untouched (progress_spinner t).
Proof. unfold progress_spinner. keeps_auto. Qed.

Lemma keeps_content_location_of headers : keeps untouched (content_location_of headers).
Proof. unfold content_location_of. keeps_auto. Qed.

Lemma keeps_to_datetime date : keeps untouched (to_datetime parse_datetime date).
Proof. unfold to_datetime. keeps_auto. Qed.
#[local] Hint Resolve keeps_post_export keeps_get_job keeps_get_info keeps_get_exports
  keeps_get_output keeps_progress_spinner keeps_content_location_of
  keeps_to_datetime : keeps.

Lemma keeps_convert_to_ISO date : keeps untouched (convert_to_ISO parse_datetime date).
Proof. unfold convert_to_ISO. keeps_auto. Qed.
#[local] Hint Resolve keeps_convert_to_ISO : keeps.

Lemma keeps_set_bound name bound keys :
  keeps untouched (set_bound parse_datetime name bound keys).
Proof. unfold set_bound. keeps_auto. Qed.

Lemma keeps_get_category_names name : keeps untouched (get_category_names srv name).
Proof. unfold get_category_names. keeps_auto. Qed.

Lemma keeps_selected category categories : keeps untouched (selected category categories).
Proof. unfold selected. keeps_auto. Qed.
#[local] Hint Resolve keeps_set_bound keeps_get_category_names keeps_selected : keeps.

Lemma keeps_select_group group categories datasets :
  keeps untouched (select_group group categories datasets).
Proof. revert datasets. induction group; intros; simpl; keeps_auto. Qed.
#[local] Hint Resolve keeps_select_group : keeps.

Lemma keeps_select_datasets info categories datasets :
  keeps untouched (select_datasets info categories datasets).
Proof. revert datasets. induction info as [|[]]; intros; simpl; keeps_auto. Qed.
#[local] Hint Resolve keeps_select_datasets : keeps.

Lemma keeps_request_keys categories since until :
  keeps untouched (request_keys parse_datetime srv categories since until).
Proof. unfold request_keys. keeps_auto. Qed.

Lemma keeps_wait_for_job fuel job response :
  keeps untouched (wait_for_job srv fuel job response).
Proof.
  revert response. induction fuel; intros; simpl; [apply keeps_out_of_fuel, _|].
  keeps_auto.
Qed.
#[local] Hint Resolve keeps_request_keys keeps_wait_for_job : keeps.

Lemma keeps_export_request fuel categories since until :
  keeps untouched (_export_request parse_datetime srv fuel categories since until).
Proof. unfold _export_request. keeps_auto. Qed.

Lemma keeps_check_available categories_list available :
  keeps untouched (check_available categories_list available).
Proof. induction categories_list; simpl; keeps_auto. Qed.

Lemma keeps_bounds_of export_dict category : keeps untouched (bounds_of export_dict category).
Proof. unfold bounds_of. keeps_auto. Qed.

Lemma keeps_category_keys category since until :
  keeps untouched (category_keys parse_datetime category since until).
Proof. unfold category_keys. keeps_auto. Qed.
#[local] Hint Resolve keeps_export_request keeps_check_available keeps_bounds_of
  keeps_category_keys : keeps.

Lemma keeps_build_export_key_list export_dict categories_list acc :
  keeps untouched (build_export_key_list parse_datetime export_dict categories_list acc).
Proof. revert acc. induction categories_list; intros; simpl; keeps_auto. Qed.

Lemma keeps_schedule_jobs categories_list export_key_list acc :
  keeps untouched (schedule_jobs srv categories_list export_key_list acc).
Proof. revert acc. induction categories_list; intros; simpl; keeps_auto. Qed.

Lemma keeps_poll_round urls categories_list st :
  keeps untouched (poll_round srv urls categories_list st).
Proof. revert st. induction categories_list; intros; simpl; keeps_auto. Qed.
#[local] Hint Resolve keeps_build_export_key_list keeps_schedule_jobs keeps_poll_round : keeps.

Lemma keeps_poll_jobs fuel urls categories_list st :
  keeps untouched (poll_jobs srv fuel urls categories_list st).
Proof.
  revert st. induction fuel; intros; simpl; [apply keeps_out_of_fuel, _|].
  keeps_auto.
Qed.
#[local] Hint Resolve keeps_poll_jobs : keeps.

Lemma keeps_export_request_parallel fuel export_dict :
  keeps untouched (_export_request_parallel parse_datetime srv fuel export_dict).
Proof. unfold _export_request_parallel. keeps_auto. Qed.

Lemma keeps_ask_index n answers : keeps untouched (ask_index n answers).
Proof. induction answers; simpl; keeps_auto. Qed.

Lemma keeps_check_current_files until save_path categories export_dict last_rows :
  keeps untouched
    (check_current_files parse_datetime until save_path categories export_dict last_rows).
Proof.
  revert export_dict last_rows. induction categories; intros; simpl; keeps_auto.
Qed.
#[local] Hint Resolve keeps_export_request_parallel keeps_ask_index
  keeps_check_current_files keeps_untouched_appended : keeps.

(** ** Downloads only append *)

Lemma keeps_export_records save_path output :
  keeps appended (export_records srv save_path output).
Proof. induction output; simpl; keeps_auto. Qed.

Lemma keeps_merge_chunk save_path last_rows category content :
  keeps appended (merge_chunk save_path last_rows category content).
Proof. unfold merge_chunk. keeps_auto. Qed.
#[local] Hint Resolve keeps_export_records keeps_merge_chunk : keeps.

Lemma keeps_refresh_chunks save_path last_rows category output :
  keeps appended (refresh_chunks srv save_path last_rows category output).
Proof. induction output; simpl; keeps_auto. Qed.
#[local] Hint Resolve keeps_refresh_chunks : keeps.

Lemma keeps_refresh_categories save_path last_rows ids data categories output :
  keeps appended (refresh_categories srv save_path last_rows ids data categories output).
Proof. revert output. induction categories; intros; simpl; keeps_auto. Qed.
#[local] Hint Resolve keeps_refresh_categories : keeps.

Lemma keeps_export fuel since until reload categories save_path answers :
  keeps appended
    (export parse_datetime srv fuel since until reload categories save_path answers).
Proof. unfold export. keeps_auto. Qed.

Lemma keeps_refresh fuel until categories save_path :
  keeps appended (refresh parse_datetime srv fuel until categories save_path).
Proof. unfold refresh, refresh_list. keeps_auto. Qed.

Lemma session_appended calls w : appended w (session parse_datetime srv calls w).
Proof.
  revert w. induction calls as [|c calls IH]; intros w; simpl; [reflexivity|].
  etrans; [|apply IH]. destruct c; [apply keeps_export | apply keeps_refresh].
Qed.

(** C8.  Every write of [export] and [refresh] goes through
    [df.to_csv(path, mode='a', header=not Path(path).exists())]: it adds
    lines at the end of the file and puts the header exactly when the file
    did not exist.  Hence, over any series of calls, a file that did not
    exist is either still absent or starts with a header that was written
    once, and a file that existed keeps its lines, in order, as a prefix
    and receives no further header. *)
Theorem csv_writes_append_only calls w path :
  (∀ df w0,
     append_csv df path w0 =
     Returns tt
       {| files := <[path := default [] (files w0 !! path) ++
                             (if files w0 !! path is Some _ then [] else [columns df]) ++
                             rows df]> (files w0);
          history := AppendFile path (negb (bool_decide (is_Some (files w0 !! path))))
                     :: StatFile path :: history w0 |}) ∧
  appended w (session parse_datetime srv calls w) ∧
  (files w !! path = None → header_writes path (history w) = 0 →
   files (session parse_datetime srv calls w) !! path = None ∨
   (∃ hdr more, files (session parse_datetime srv calls w) !! path = Some (hdr :: more)) ∧
   header_writes path (history (session parse_datetime srv calls w)) = 1) ∧
  (∀ old, files w !! path = Some old →
   (∃ more, files (session parse_datetime srv calls w) !! path = Some (old ++ more)) ∧
   header_writes path (history (session parse_datetime srv calls w)) =
   header_writes path (history w)).
Proof.
  pose proof (session_appended calls w) as H.
  split_and!; [intros; apply append_csv_run | done | |].
  - intros E E0. specialize (H path). rewrite E in H.
    destruct H as [[H _]|[H H']]; [by left | right]. split; [done | congruence].
  - intros old E. specialize (H path). by rewrite E in H.
Qed.

(** ** A failed retrieval *)

Lemma bind_assoc {A B C} (m : py A) (k : A → py B) (k' : B → py C) w :
  bind (bind m k) k' w = bind m (λ a, bind (k a) k') w.
Proof. unfold bind. by destruct (m w). Qed.

Lemma bind_ext {A B} (m : py A) (k k' : A → py B) w :
  (∀ a w1, k a w1 = k' a w1) → bind m k w = bind m k' w.
Proof. intros H. unfold bind. destruct (m w); [apply H | done..]. Qed.

Lemma export_records_app save_path before after w :
  export_records srv save_path (before ++ after) w =
  bind (export_records srv save_path before)
       (λ _, export_records srv save_path after) w.
Proof.
  revert w. induction before as [|record before IH]; intros w; [done|].
  change ((record :: before) ++ after) with (record :: (before ++ after)).
  cbn [export_records refresh_chunks]. rewrite bind_assoc.
  apply bind_ext; intros content w1. rewrite bind_assoc.
  apply bind_ext; intros _ w2. apply IH.
Qed.

Lemma refresh_chunks_app save_path last_rows category before after w :
  refresh_chunks srv save_path last_rows category (before ++ after) w =
  bind (refresh_chunks srv save_path last_rows category before)
       (λ _, refresh_chunks srv save_path last_rows category after) w.
Proof.
  revert w. induction before as [|record before IH]; intros w; [done|].
  change ((record :: before) ++ after) with (record :: (before ++ after)).
  cbn [export_records refresh_chunks]. rewrite bind_assoc.
  apply bind_ext; intros content w1. rewrite bind_assoc.
  apply bind_ext; intros _ w2. apply IH.
Qed.

Lemma export_records_failure save_path record after w :
  status_code (output_reply srv (rec_url record)) ≠ 200%Z →
  export_records srv save_path (record :: after) w =
  export_records srv save_path after (after_failure srv record None w).
Proof. intros H. simpl. unfold bind, get_output, emit, ret; simpl. by rewrite decide_True. Qed.

Lemma refresh_chunks_failure save_path last_rows category record after w :
  status_code (output_reply srv (rec_url record)) ≠ 200%Z →
  refresh_chunks srv save_path last_rows category (record :: after) w =
  refresh_chunks srv save_path last_rows category after (after_failure srv record (Some category) w).
Proof. intros H. simpl. unfold bind, get_output, emit, ret; simpl. by rewrite decide_True. Qed.

Lemma refresh_chunks_all_fail save_path last_rows category chunks w :
  Forall (λ record, status_code (output_reply srv (rec_url record)) ≠ 200%Z) chunks →
  ∃ w', refresh_chunks srv save_path last_rows category chunks w = Returns tt w' ∧
        files w' = files w.
Proof.
  intros H. revert w. induction H as [|record chunks Hr _ IH]; intros w; [by exists w|].
  rewrite refresh_chunks_failure by done.
  destruct (IH (after_failure srv record (Some category) w)) as (w' & -> & Hf). by exists w'.
Qed.

(** C6, as amended.  In [export] and in [refresh], a retrieval answered
    with a code other than 200 is reported and skipped: it changes no
    file, and the loop goes on with the entries that follow it, wherever
    it stands in the manifest.  In [refresh], a category whose chunks all
    fail keeps its file as it was, and the categories after it are
    processed. *)
Theorem failed_retrieval_is_skipped save_path last_rows category
    before record after w w1 :
  status_code (output_reply srv (rec_url record)) ≠ 200%Z →
  (export_records srv save_path before w = Returns tt w1 →
   export_records srv save_path (before ++ record :: after) w =
   export_records srv save_path after (after_failure srv record None w1)) ∧
  (refresh_chunks srv save_path last_rows category before w = Returns tt w1 →
   refresh_chunks srv save_path last_rows category (before ++ record :: after) w =
   refresh_chunks srv save_path last_rows category after
     (after_failure srv record (Some category) w1)) ∧
  (∀ c, files (after_failure srv record c w1) = files w1) ∧
  (∀ ids data job chunks rest output,
     ids !! category = Some job →
     find_output data job output = Some chunks →
     Forall (λ r, status_code (output_reply srv (rec_url r)) ≠ 200%Z) chunks →
     ∃ w', files w' = files w ∧
       refresh_categories srv save_path last_rows ids data (category :: rest) output w =
       refresh_categories srv save_path last_rows ids data rest (Some chunks) w').
Proof.
  intros Hfail. split_and!.
  - intros H. rewrite export_records_app. rewrite (bind_returns _ _ _ _ _ H).
    by apply export_records_failure.
  - intros H. rewrite refresh_chunks_app. rewrite (bind_returns _ _ _ _ _ H).
    by apply refresh_chunks_failure.
  - done.
  - intros ids data job chunks rest output Hj Ho Hall.
    destruct (refresh_chunks_all_fail save_path last_rows category chunks w Hall)
      as (w' & Hrun & Hf).
    exists w'. split; [done|]. simpl. unfold getitem. rewrite Hj.
    unfold bind at 1. simpl. rewrite Ho. by rewrite (bind_returns _ _ _ _ _ Hrun).
Qed.

(** ** Dates and payloads *)

Lemma to_datetime_pure date w :
  (∃ t, ∀ w0, to_datetime parse_datetime date w0 = Returns t w0) ∨
  (∃ e, to_datetime parse_datetime date w = Raises e w).
Proof.
  destruct date as [s|t]; simpl; [|left; by exists t].
  destruct (parse_datetime s) as [t|]; [left; by exists t | right; by eexists].
Qed.

Lemma set_bound_returns name bound keys w keys' w' :
  set_bound parse_datetime name bound keys w = Returns keys' w' →
  w' = w ∧
  (keys !! name = None → sent_bound parse_datetime bound (keys' !! name)) ∧
  ∀ k, k ≠ name → keys' !! k = keys !! k.
Proof.
  destruct bound as [date|]; simpl.
  - unfold convert_to_ISO, bind.
    destruct (to_datetime_pure date w) as [[t Ht]|[e He]].
    + rewrite Ht. unfold ret. intros [= <- <-]. split_and!; [done| |].
      * intros _. exists t. split; [done|]. by rewrite lookup_insert_eq.
      * intros k Hk. rewrite lookup_insert_ne; [done | congruence].
    + by rewrite He.
  - unfold ret. intros [= <- <-]. done.
Qed.


(** ** Refresh: the argument check *)

(** C7.  [refresh] called with [categories=None] raises the TypeError at
    once: the world it stops in is the world it started in, so no request
    was sent and no file was looked at. *)
Theorem refresh_requires_categories fuel until save_path w :
  refresh parse_datetime srv fuel until CatNone save_path w
  = Raises (TypeError "Please supply at least one category...") w.
Proof. reflexivity. Qed.

(** C10.  [refresh] called with one string does what [refresh] called
    with the list of that one string does: the body runs on the list
    [[s]], not on the characters of [s]. *)
Theorem refresh_string_as_singleton fuel until s save_path w :
  refresh parse_datetime srv fuel until (CatStr s) save_path w
  = refresh parse_datetime srv fuel until (CatList [s]) save_path w ∧
  refresh parse_datetime srv fuel until (CatStr s) save_path w
  = refresh_list parse_datetime srv fuel until [s] save_path w.
Proof. split; reflexivity. Qed.

End Proofs.

(** ** Dataset names that are not in the catalog *)

Lemma raises_only_bind {A B} P (m : py A) (k : A → py B) :
  raises_only P m → (∀ a, raises_only P (k a)) → raises_only P (bind m k).
Proof.
  intros Hm Hk w e w'. unfold bind. destruct (m w) as [a w1|e1 w1|w1] eqn:E; [|naive_solver..].
  apply Hk.
Qed.

Lemma raises_only_ret {A} P (a : A) : raises_only P (ret a).
Proof. by intros w e w'. Qed.

Lemma raises_only_raise {A} (P : exn → Prop) e : P e → raises_only P (raise (A := A) e).
Proof. intros H w e' w'. unfold raise. by intros [= <- _]. Qed.

Lemma raises_only_emit P e : raises_only P (emit e).
Proof. by intros w e' w'. Qed.

Lemma raises_only_out_of_fuel {A} P : raises_only P (λ w, OutOfFuel (A := A) w).
Proof. by intros w e w'. Qed.

Ltac raises_step :=
  lazymatch goal with
  | |- raises_only _ (bind _ _) => apply raises_only_bind; [ | intros ?]
  | |- raises_only _ (ret _) => apply raises_only_ret
  | |- raises_only _ (emit _) => apply raises_only_emit
  | |- raises_only not_type_error (raise _) => apply raises_only_raise; by intros ?
  | |- raises_only _ (match ?x with _ => _ end) => destruct x
  | |- raises_only _ (let _ := _ in _) => cbv zeta
  end.

Create HintDb raises discriminated.

Ltac raises_auto := repeat first [ solve [eauto with raises] | raises_step ].

Section UnknownDatasets.

Variable parse_datetime : string → option Timestamp.
Variable srv : Server.

Lemma raises_to_datetime date : raises_only not_type_error (to_datetime parse_datetime date).
Proof. unfold to_datetime. raises_auto. Qed.
#[local] Hint Resolve raises_to_datetime : raises.

Lemma raises_set_bound name bound keys :
  raises_only not_type_error (set_bound parse_datetime name bound keys).
Proof. unfold set_bound, convert_to_ISO. raises_auto. Qed.

Lemma raises_select_group group l datasets :
  raises_only not_type_error (select_group group (CatList l) datasets).
Proof. revert datasets. induction group; intros; simpl; raises_auto. Qed.
#[local] Hint Resolve raises_set_bound raises_select_group : raises.

Lemma raises_select_datasets info l datasets :
  raises_only not_type_error (select_datasets info (CatList l) datasets).
Proof. revert datasets. induction info as [|[]]; intros; simpl; raises_auto. Qed.

Lemma raises_wait_for_job fuel job response :
  raises_only not_type_error (wait_for_job srv fuel job response).
Proof.
  revert response. induction fuel; intros; simpl; [apply raises_only_out_of_fuel|].
  unfold get_job, progress_spinner. raises_auto. by intros w0 e0 w0'.
Qed.
#[local] Hint Resolve raises_select_datasets raises_wait_for_job : raises.


Lemma elem_of_add_dataset c category datasets :
  c ∈ add_dataset category datasets ↔ c ∈ datasets ∨ c = category.
Proof.
  unfold add_dataset. case_bool_decide.
  - split; [by left | intros [?| ->]; done].
  - by rewrite elem_of_app, list_elem_of_singleton.
Qed.



Lemma check_available_first categories_list available w :
  (∃ c, c ∈ categories_list ∧ c ∉ available) →
  ∃ c0 before after,
    categories_list = before ++ c0 :: after ∧
    Forall (λ c, c ∈ available) before ∧ (c0 ∉ available) ∧
    check_available categories_list available w = Raises (not_available c0) w.
Proof.
  induction categories_list as [|category rest IH]; intros (c & Hc & Hn); [set_solver|].
  simpl. case_bool_decide as Hin.
  - destruct IH as (c0 & before & after & -> & Hb & H0 & Hr); [set_solver|].
    exists c0, (category :: before), after. split_and!; [done| |done|done].
    by constructor.
  - exists category, [], rest. split_and!; done.
Qed.

Lemma grows_refl w : grows w w.
Proof. by exists []. Qed.

Lemma grows_trans w1 w2 w3 : grows w1 w2 → grows w2 w3 → grows w1 w3.
Proof.
  intros [m1 H1] [m2 H2]. exists (m2 ++ m1). by rewrite H2, H1, app_assoc.
Qed.

#[local] Instance grows_preorder : PreOrder grows.
Proof. split; [exact grows_refl | exact grows_trans]. Qed.





End UnknownDatasets.

(** ** The polling loop of the parallel export *)

Section Polling.

Variable srv : Server.
Variable request_url_dict : gmap string string.

Lemma still_waiting_true st :
  still_waiting st = true ↔ ∃ c, waiting_for st !! c = Some true.
Proof.
  unfold still_waiting. rewrite bool_decide_eq_true, list_elem_of_fmap. split.
  - intros ([c b] & -> & H). exists c. by apply elem_of_map_to_list in H.
  - intros [c H]. exists (c, true). split; [done|]. by apply elem_of_map_to_list.
Qed.

Lemma still_waiting_false st :
  still_waiting st = false ↔ ∀ c, waiting_for st !! c ≠ Some true.
Proof.
  rewrite <- not_true_iff_false, still_waiting_true. naive_solver.
Qed.

Lemma polling_init_lookup categories_list c :
  waiting_for (polling_init categories_list) !! c =
  if bool_decide (c ∈ categories_list) then Some true else None.
Proof.
  unfold polling_init; cbn [waiting_for].
  induction categories_list as [|x l IH]; [done|].
  rewrite fmap_cons, list_to_map_cons; cbn [fst snd].
  destruct (decide (x = c)) as [->|Hne].
  - rewrite lookup_insert_eq. rewrite bool_decide_eq_true_2; [done | set_solver].
  - rewrite lookup_insert_ne by done. rewrite IH.
    apply (f_equal (λ b : bool, if b then Some true else None)).
    apply bool_decide_ext. set_solver.
Qed.

(** *** What holds whenever the loop returns *)

Lemma pending_get_job_same url r h :
  pending url (GetJob url r :: h) ↔ reply_status r = 202%Z.
Proof.
  unfold pending; simpl. rewrite decide_True by done. naive_solver.
Qed.

Lemma pending_get_job_other url u r h :
  u ≠ url → pending url (GetJob u r :: h) ↔ pending url h.
Proof. intros Hne. unfold pending; simpl. by rewrite decide_False. Qed.

Lemma poll_inv_answer categories_list st h c u r ids :
  poll_inv request_url_dict categories_list st h →
  c ∈ categories_list → request_url_dict !! c = Some u →
  poll_inv request_url_dict categories_list
    {| waiting_for := <[c := bool_decide (reply_status r = 202%Z)]> (waiting_for st);
       job_id_dict := ids |}
    (GetJob u r :: h).
Proof.
  intros (H1 & H2 & H3) Hc Hu. split_and!; simpl.
  - intros c0 u0 Hc0 Hu0 Hp. destruct (decide (u = u0)) as [->|Hne].
    + apply pending_get_job_same in Hp. exists c. split_and!; [done..|].
      rewrite lookup_insert_eq. by rewrite bool_decide_eq_true_2.
    + apply pending_get_job_other in Hp; [|done].
      destruct (H1 c0 u0 Hc0 Hu0 Hp) as (c' & Hc' & Hu' & Hw).
      exists c'. split_and!; [done..|]. rewrite lookup_insert_ne; [done|].
      intros ->. congruence.
  - intros c0 Hc0. destruct (decide (c = c0)) as [->|Hne].
    + by eexists.
    + rewrite lookup_insert_ne by done. by apply H2.
  - intros c0 Hc0. destruct (decide (c = c0)) as [->|Hne].
    + rewrite lookup_insert_eq. by eexists.
    + rewrite lookup_insert_ne by done. by apply H3.
Qed.

Lemma poll_inv_report categories_list st h x :
  poll_inv request_url_dict categories_list st h →
  poll_inv request_url_dict categories_list st (PrintRequestFailed x :: h).
Proof. done. Qed.

Lemma poll_round_inv categories_list todo : ∀ st w st' w',
  todo ⊆ categories_list →
  poll_inv request_url_dict categories_list st (history w) →
  poll_round srv request_url_dict todo st w = Returns st' w' →
  poll_inv request_url_dict categories_list st' (history w').
Proof.
  induction todo as [|c rest IH]; intros st w st' w' Hsub Hinv; simpl.
  - unfold ret. by intros [= <- <-].
  - assert (c ∈ categories_list) as Hc by set_solver.
    assert (rest ⊆ categories_list) as Hrest by set_solver.
    unfold getitem at 1. destruct (waiting_for st !! c) as [[|]|] eqn:Ew;
      unfold bind at 1; simpl; [|by apply IH|done].
    unfold getitem. destruct (request_url_dict !! c) as [u|] eqn:Eu;
      unfold bind at 1; simpl; [|done].
    unfold bind at 1; simpl.
    set (r := job_reply srv u (polls u (history w))).
    pose proof (poll_inv_answer categories_list st (history w) c u r
                  (<[c := reply_id r]> (job_id_dict st)) Hinv Hc Eu) as Hstep.
    destruct (decide (reply_status r = 202%Z)) as [E|E].
    + rewrite bool_decide_eq_true_2 in Hstep by done. by apply IH.
    + rewrite bool_decide_eq_false_2 in Hstep by done.
      destruct (decide (reply_status r = 500%Z)); [unfold bind at 1; simpl|]; by apply IH.
Qed.

Lemma poll_jobs_inv categories_list fuel : ∀ st w ids w',
  poll_inv request_url_dict categories_list st (history w) →
  poll_jobs srv fuel request_url_dict categories_list st w = Returns ids w' →
  ∀ c, c ∈ categories_list →
    ∃ u r, request_url_dict !! c = Some u ∧
           last_reply u (history w') = Some r ∧ reply_status r ≠ 202%Z.
Proof.
  induction fuel as [|fuel IH]; intros st w ids w' Hinv; simpl; [done|].
  intros H. bind_inv H.
  apply (poll_round_inv categories_list) in H0; [|done..].
  destruct (still_waiting a) eqn:Esw.
  - unfold bind in H; simpl in H.
    exact (IH a (record_event (Sleep 30) w0) ids w' H0 H).
  - unfold ret in H. injection H as <- <-.
    destruct H0 as (H1 & H2 & H3). intros c Hc.
    rewrite still_waiting_false in Esw.
    destruct (H3 c Hc) as [[|] Ew]; [by apply Esw in Ew|].
    destruct (H2 c Hc Ew) as [u Eu]. exists u.
    destruct (last_reply u (history w0)) as [r|] eqn:El.
    + exists r. split_and!; [done..|]. intros E202.
      destruct (H1 c u Hc Eu) as (c' & _ & _ & Hw); [|by apply Esw in Hw].
      intros r'. rewrite El. by intros [= <-].
    + destruct (H1 c u Hc Eu) as (c' & _ & _ & Hw); [|by apply Esw in Hw].
      intros r'. by rewrite El.
Qed.

Lemma poll_inv_init categories_list h :
  poll_inv request_url_dict categories_list (polling_init categories_list) h.
Proof.
  split_and!.
  - intros c u Hc Hu _. exists c. split_and!; [done..|].
    rewrite polling_init_lookup. by rewrite bool_decide_eq_true_2.
  - intros c Hc. rewrite polling_init_lookup. by rewrite bool_decide_eq_true_2.
  - intros c Hc. rewrite polling_init_lookup. rewrite bool_decide_eq_true_2 by done.
    by eexists.
Qed.

(** *** The run of the loop when every job gets a final answer *)

Variable h0 : list event.
Variable d : string → nat.

Local Abbreviation at_round := (cat_at srv request_url_dict h0 d).

Lemma cat_at_transfer r c st h st' h' :
  at_round r c st h →
  waiting_for st' !! c = waiting_for st !! c →
  job_id_dict st' !! c = job_id_dict st !! c →
  (∀ u, request_url_dict !! c = Some u → polls u h' = polls u h) →
  failure_reports c h' = failure_reports c h →
  at_round r c st' h'.
Proof.
  intros (u & Eu & Hft & Ew & Ep & Ef & Hid) Hw Hi Hp Hf.
  exists u. rewrite Hw, Hi, (Hp u Eu), Hf. done.
Qed.

(** One category in one round. *)
Lemma poll_step_run r c rest st w :
  at_round r c st (history w) →
  ∃ st1 w1 u,
    request_url_dict !! c = Some u ∧
    poll_round srv request_url_dict (c :: rest) st w =
      poll_round srv request_url_dict rest st1 w1 ∧
    at_round (S r) c st1 (history w1) ∧
    (∀ c', c' ≠ c →
       waiting_for st1 !! c' = waiting_for st !! c' ∧
       job_id_dict st1 !! c' = job_id_dict st !! c' ∧
       failure_reports c' (history w1) = failure_reports c' (history w)) ∧
    (∀ u', u' ≠ u → polls u' (history w1) = polls u' (history w)) ∧
    sleeps (history w1) = sleeps (history w) ∧
    files w1 = files w.
Proof.
  intros (u & Eu & Hft & Ew & Ep & Ef & Hid).
  cbn [poll_round]. unfold getitem at 1. rewrite Ew. unfold bind at 1; simpl.
  case_bool_decide as Hr; simpl.
  - (* still waited for: one more request *)
    unfold getitem. rewrite Eu. unfold bind at 1; simpl. unfold bind at 1; simpl.
    assert (polls u (history w) = polls u h0 + r) as Epr by lia.
    rewrite Epr. set (reply := job_reply srv u (polls u h0 + r)).
    destruct Hft as [H202 Hterm].
    destruct (decide (r < d c)) as [Hlt|Hge].
    + (* the answer is 202 *)
      rewrite decide_True by (by apply H202).
      eexists _, _, u. split_and!; [done|reflexivity| | | |done|done].
      * exists u. simpl. rewrite !lookup_insert_eq, decide_True by done.
        split_and!; [done|done| | | |].
        -- f_equal. symmetry. apply bool_decide_eq_true_2. lia.
        -- lia.
        -- rewrite Ef. rewrite !decide_False by lia. done.
        -- intros _. do 2 f_equal. fold reply. f_equal. lia.
      * intros c' Hne. simpl. rewrite !lookup_insert_ne by done. done.
      * intros u' Hne. simpl. by rewrite decide_False.
    + (* the answer is final *)
      assert (r = d c) as Hrd by lia.
      assert (reply_status reply ≠ 202%Z) as Hn202 by (unfold reply; by rewrite Hrd).
      rewrite decide_False by done.
      assert (∃ w1,
        (if decide (reply_status reply = 500%Z)
         then emit (PrintRequestFailed (Some c)) ;;;
              poll_round srv request_url_dict rest
                {| waiting_for := <[c:=false]> (waiting_for st);
                   job_id_dict := <[c:=reply_id reply]> (job_id_dict st) |}
         else poll_round srv request_url_dict rest
                {| waiting_for := <[c:=false]> (waiting_for st);
                   job_id_dict := <[c:=reply_id reply]> (job_id_dict st) |})
          (record_event (GetJob u reply) w) =
        poll_round srv request_url_dict rest
          {| waiting_for := <[c:=false]> (waiting_for st);
             job_id_dict := <[c:=reply_id reply]> (job_id_dict st) |} w1 ∧
        files w1 = files w ∧ sleeps (history w1) = sleeps (history w) ∧
        (∀ u', polls u' (history w1) = polls u' (GetJob u reply :: history w)) ∧
        (∀ c', c' ≠ c → failure_reports c' (history w1) = failure_reports c' (history w)) ∧
        failure_reports c (history w1) =
          failure_reports c (history w) + reports_due srv u (polls u h0) (d c))
        as (w1 & Erun & Hfiles & Hsleeps & Hpolls & Hrep & Hrepc).
      { unfold reports_due. rewrite <- Hrd. fold reply.
        destruct (decide (reply_status reply = 500%Z)).
        - eexists. split; [reflexivity|]. simpl. split_and!; [done..| |].
          + intros c' Hne. by rewrite decide_False.
          + rewrite decide_True by done. lia.
        - eexists. split; [reflexivity|]. simpl. split_and!; [done..|lia]. }
      exists {| waiting_for := <[c:=false]> (waiting_for st);
                job_id_dict := <[c:=reply_id reply]> (job_id_dict st) |}, w1, u.
      split_and!; [done|exact Erun| | | |done|done].
      * exists u. simpl. rewrite !lookup_insert_eq, Hpolls. simpl.
        rewrite decide_True by done.
        split_and!; [done|done| | | |].
        -- f_equal. symmetry. apply bool_decide_eq_false_2. lia.
        -- lia.
        -- rewrite Hrepc, Ef. rewrite decide_False, decide_True by lia. lia.
        -- intros _. do 2 f_equal. fold reply. f_equal. lia.
      * intros c' Hne. simpl. rewrite !lookup_insert_ne by done. by rewrite Hrep.
      * intros u' Hne. rewrite Hpolls. simpl. by rewrite decide_False.
  - (* no longer waited for: skipped *)
    exists st, w, u. split_and!; [done|done| |done..].
    exists u. split_and!; [done|done| | | |].
    + rewrite Ew. f_equal. symmetry. apply bool_decide_eq_false_2. lia.
    + lia.
    + rewrite Ef. rewrite !decide_True by lia. done.
    + intros _. rewrite Hid by lia. do 3 f_equal. lia.
Qed.

Lemma poll_round_run r todo : ∀ st w,
  NoDup todo → distinct_locations request_url_dict todo →
  (∀ c, c ∈ todo → at_round r c st (history w)) →
  ∃ st' w',
    poll_round srv request_url_dict todo st w = Returns st' w' ∧
    (∀ c, c ∈ todo → at_round (S r) c st' (history w')) ∧
    round_frame request_url_dict todo st w st' w'.
Proof.
  induction todo as [|c rest IH]; intros st w Hnd Hdist Hall.
  - exists st, w. split_and!; [done | set_solver | by repeat split].
  - apply NoDup_cons in Hnd as [Hc Hnd].
    destruct (poll_step_run r c rest st w) as
      (st1 & w1 & u & Eu & Erun & Hc1 & Hothers & Hpolls & Hsleeps & Hfiles);
      [apply Hall; set_solver|].
    assert (∀ c', c' ∈ rest → request_url_dict !! c' ≠ Some u) as Hurls.
    { intros c' Hc' Eu'. apply Hc.
      rewrite (Hdist c c' u); [done|set_solver|set_solver|done|done]. }
    destruct (IH st1 w1) as (st' & w' & Erest & Hrest & Hf1 & Hf2 & Hf3 & Hf4); [done| |..].
    { intros c1 c2 u' H1 H2. apply Hdist; set_solver. }
    { intros c' Hc'. assert (c' ≠ c) as Hne by (intros ->; done).
      destruct (Hothers c' Hne) as (Hw & Hi & Hr).
      apply (cat_at_transfer r c' st (history w)); [apply Hall; set_solver|done..| |done].
      intros u' Eu'. apply Hpolls. intros ->. by apply (Hurls c'). }
    exists st', w'. split_and!.
    + by rewrite Erun.
    + intros c' [->|Hc']%elem_of_cons; [|by apply Hrest].
      destruct (Hf1 c Hc) as (Hw & Hi & Hr).
      apply (cat_at_transfer (S r) c st1 (history w1)); [done..| |done].
      intros u' Eu'. apply Hf2. intros c' Hc'. assert (u' = u) as -> by congruence.
      by apply Hurls.
    + split_and!.
      * intros c' Hc'. apply not_elem_of_cons in Hc' as [Hne Hc'].
        destruct (Hf1 c' Hc') as (Hw & Hi & Hr). destruct (Hothers c' Hne) as (Hw' & Hi' & Hr').
        split_and!; congruence.
      * intros u' Hu'. rewrite Hf2 by (intros c' Hc'; apply Hu'; set_solver).
        apply Hpolls. intros ->. apply (Hu' c); [set_solver|done].
      * congruence.
      * congruence.
Qed.

Lemma rounds_needed_ge categories_list c :
  c ∈ categories_list → S (d c) <= rounds_needed d categories_list.
Proof.
  unfold rounds_needed. induction categories_list as [|x l IH]; [set_solver|].
  rewrite fmap_cons. cbn [list_max fold_right].
  intros [->|H]%elem_of_cons; [lia|]. specialize (IH H). fold (list_max ((λ c, S (d c)) <$> l)). lia.
Qed.

Lemma rounds_needed_reached categories_list k :
  1 <= k → k < rounds_needed d categories_list →
  ∃ c, c ∈ categories_list ∧ k <= d c.
Proof.
  unfold rounds_needed. induction categories_list as [|x l IH]; [simpl; lia|].
  rewrite fmap_cons. cbn [list_max fold_right].
  fold (list_max ((λ c, S (d c)) <$> l)). intros H1 Hk.
  destruct (decide (k <= d x)) as [Hx|Hx]; [exists x; split; [set_solver|done]|].
  destruct IH as (c & Hc & Hd); [done|lia|]. exists c. split; [set_solver|done].
Qed.

Lemma poll_jobs_run categories_list :
  NoDup categories_list → distinct_locations request_url_dict categories_list →
  ∀ n r st w fuel,
    r + S n = rounds_needed d categories_list → S n <= fuel →
    (∀ c, c ∈ categories_list → at_round r c st (history w)) →
    (∀ c b, waiting_for st !! c = Some b → c ∈ categories_list) →
    ∃ st' w',
      poll_jobs srv fuel request_url_dict categories_list st w =
        Returns (job_id_dict st') w' ∧
      (∀ c, c ∈ categories_list → at_round (r + S n) c st' (history w')) ∧
      sleeps (history w') = sleeps (history w) + n ∧
      files w' = files w.
Proof.
  intros Hnd Hdist. induction n as [|n IH]; intros r st w fuel HR Hfuel Hall Hdom.
  all: destruct fuel as [|fuel]; [lia|]; cbn [poll_jobs].
  all: destruct (poll_round_run r categories_list st w Hnd Hdist Hall)
         as (st1 & w1 & Erun & Hall1 & Hf1 & Hf2 & Hf3 & Hf4).
  all: rewrite (bind_returns _ _ _ _ _ Erun).
  all: assert (∀ c b, waiting_for st1 !! c = Some b → c ∈ categories_list) as Hdom1
         by (intros c b Hb; destruct (decide (c ∈ categories_list)) as [|Hn]; [done|];
             destruct (Hf1 c Hn) as (Hw & _); rewrite Hw in Hb; by eapply Hdom).
  - assert (still_waiting st1 = false) as ->.
    { apply still_waiting_false. intros c Hc.
      pose proof (Hdom1 c true Hc) as Hin.
      destruct (Hall1 c Hin) as (u & _ & _ & Ew & _).
      pose proof (rounds_needed_ge categories_list c Hin).
      rewrite Hc in Ew. injection Ew as Ew. symmetry in Ew.
      apply bool_decide_eq_true in Ew. lia. }
    exists st1, w1. split_and!; [done| |lia|done].
    intros c Hc. replace (r + 1) with (S r) by lia. by apply Hall1.
  - assert (still_waiting st1 = true) as ->.
    { apply still_waiting_true.
      destruct (rounds_needed_reached categories_list (S r)) as (c & Hc & Hd); [lia..|].
      exists c. destruct (Hall1 c Hc) as (u & _ & _ & Ew & _).
      rewrite Ew. f_equal. by apply bool_decide_eq_true_2. }
    unfold bind at 1; simpl.
    destruct (IH (S r) st1 (record_event (Sleep 30) w1) fuel) as (st' & w' & E & Hall' & Hs & Hf);
      [lia|lia|exact Hall1|exact Hdom1|].
    simpl in Hs, Hf.
    exists st', w'. split_and!; [done| | |congruence].
    + intros c Hc. replace (r + S (S n)) with (S r + S n) by lia. by apply Hall'.
    + lia.
Qed.

End Polling.

Lemma poll_jobs_from_start srv request_url_dict categories_list d w fuel :
  NoDup categories_list → distinct_locations request_url_dict categories_list →
  (∀ c, c ∈ categories_list →
     ∃ u, request_url_dict !! c = Some u ∧
          first_terminal srv u (polls u (history w)) (d c)) →
  rounds_needed d categories_list <= fuel →
  ∃ ids w',
    poll_jobs srv fuel request_url_dict categories_list (polling_init categories_list) w =
      Returns ids w' ∧
    sleeps (history w') = sleeps (history w) + (rounds_needed d categories_list - 1) ∧
    files w' = files w ∧
    ∀ c, c ∈ categories_list →
      ∃ u, request_url_dict !! c = Some u ∧
        polls u (history w') = polls u (history w) + S (d c) ∧
        ids !! c = Some (reply_id (job_reply srv u (polls u (history w) + d c))) ∧
        failure_reports c (history w') =
          failure_reports c (history w) + reports_due srv u (polls u (history w)) (d c).
Proof.
  intros Hnd Hdist Hterm Hfuel.
  assert (1 <= rounds_needed d categories_list) as Hpos by (unfold rounds_needed; lia).
  destruct (poll_jobs_run srv request_url_dict (history w) d categories_list Hnd Hdist
              (rounds_needed d categories_list - 1) 0 (polling_init categories_list) w fuel)
    as (st' & w' & Erun & Hall & Hs & Hf); [lia|lia| | |].
  - intros c Hc. destruct (Hterm c Hc) as (u & Eu & Hft). exists u.
    rewrite polling_init_lookup, bool_decide_eq_true_2 by done.
    split_and!; [done|done| |simpl; lia| |lia].
    + by rewrite bool_decide_eq_true_2 by lia.
    + rewrite decide_False by lia. lia.
  - intros c b. rewrite polling_init_lookup. case_bool_decide; done.
  - exists (job_id_dict st'), w'. split_and!; [done..|].
    intros c Hc. destruct (Hall c Hc) as (u & Eu & _ & _ & Ep & Ef & Hid).
    pose proof (rounds_needed_ge d categories_list c Hc).
    exists u. split_and!; [done|lia| |].
    + rewrite Hid by lia. do 3 f_equal. lia.
    + rewrite Ef. rewrite decide_True by lia. done.
Qed.

(** C4.  The polling loop of [_export_request_parallel] returns only when
    the last answer of every tracked job location is a final one (not 202):
    it never returns while one is pending.  When every job gets a final
    answer, category [c] after [d c] answers 202 (the categories being the
    distinct keys of a dict, each with a job location of its own), the
    loop returns: it runs as many rounds as it takes the slowest job,
    sleeping between rounds only, and asks each location up to its final
    answer and no further.  With no category it returns the empty dict at
    once, without a request and without a sleep. *)
Theorem poll_jobs_terminates_exactly srv request_url_dict categories_list :
  (∀ fuel w ids w',
     poll_jobs srv fuel request_url_dict categories_list
       (polling_init categories_list) w = Returns ids w' →
     ∀ c, c ∈ categories_list →
       ∃ u r, request_url_dict !! c = Some u ∧
              last_reply u (history w') = Some r ∧ reply_status r ≠ 202%Z) ∧
  (∀ d w fuel,
     NoDup categories_list → distinct_locations request_url_dict categories_list →
     (∀ c, c ∈ categories_list →
        ∃ u, request_url_dict !! c = Some u ∧
             first_terminal srv u (polls u (history w)) (d c)) →
     rounds_needed d categories_list <= fuel →
     ∃ ids w',
       poll_jobs srv fuel request_url_dict categories_list
         (polling_init categories_list) w = Returns ids w' ∧
       sleeps (history w') = sleeps (history w) + (rounds_needed d categories_list - 1) ∧
       ∀ c, c ∈ categories_list →
         ∃ u, request_url_dict !! c = Some u ∧
              polls u (history w') = polls u (history w) + S (d c)) ∧
  (categories_list = [] →
   ∀ fuel w,
     poll_jobs srv (S fuel) request_url_dict categories_list
       (polling_init categories_list) w = Returns ∅ w).
Proof.
  split_and!.
  - intros fuel w ids w' H. eapply poll_jobs_inv; [apply poll_inv_init | exact H].
  - intros d w fuel Hnd Hdist Hterm Hfuel.
    destruct (poll_jobs_from_start srv request_url_dict categories_list d w fuel)
      as (ids & w' & E & Hs & _ & Hall); [done..|].
    exists ids, w'. split_and!; [done..|].
    intros c Hc. destruct (Hall c Hc) as (u & Eu & Hp & _). by exists u.
  - intros -> fuel w. reflexivity.
Qed.

Lemma list_max_fmap_ext (f g : string → nat) l :
  (∀ c, c ∈ l → f c = g c) → list_max (f <$> l) = list_max (g <$> l).
Proof.
  induction l as [|x l IH]; intros H; [done|].
  rewrite !fmap_cons. cbn [list_max fold_right].
  fold (list_max (f <$> l)). fold (list_max (g <$> l)).
  rewrite IH by set_solver. rewrite (H x) by set_solver. done.
Qed.

(** C5, as amended.  When the status sequence of every job location is
    [202, 202, complete] or [202, failed] (each category having a job
    location of its own), the loop returns after as many
    rounds as the longest sequence has answers, with one sleep between
    two rounds; each location is asked once per answer of its sequence and
    never after its final answer.  What the loop returns and keeps for a
    category is the job id of its last answer, not its status: the
    failure is only printed, once, for a category whose sequence ends with
    500, and nothing is printed for the others. *)
Theorem poll_jobs_status_sequences srv request_url_dict categories_list w fuel :
  NoDup categories_list → distinct_locations request_url_dict categories_list →
  categories_list ≠ [] →
  (∀ c, c ∈ categories_list →
     ∃ u, request_url_dict !! c = Some u ∧
          (slow_success srv u (polls u (history w)) ∨
           quick_failure srv u (polls u (history w)))) →
  list_max (sequence_length srv request_url_dict (history w) <$> categories_list) <= fuel →
  ∃ ids w',
    poll_jobs srv fuel request_url_dict categories_list
      (polling_init categories_list) w = Returns ids w' ∧
    sleeps (history w') + 1 =
      sleeps (history w) +
      list_max (sequence_length srv request_url_dict (history w) <$> categories_list) ∧
    ∀ c, c ∈ categories_list →
      ∃ u, request_url_dict !! c = Some u ∧
        polls u (history w') =
          polls u (history w) + sequence_length srv request_url_dict (history w) c ∧
        ids !! c =
          Some (reply_id (job_reply srv u
                  (polls u (history w) +
                   (sequence_length srv request_url_dict (history w) c - 1)))) ∧
        (slow_success srv u (polls u (history w)) →
         sequence_length srv request_url_dict (history w) c = 3 ∧
         failure_reports c (history w') = failure_reports c (history w)) ∧
        (quick_failure srv u (polls u (history w)) →
         sequence_length srv request_url_dict (history w) c = 2 ∧
         failure_reports c (history w') = S (failure_reports c (history w))).
Proof.
  intros Hnd Hdist Hne Hseq Hfuel.
  set (len := sequence_length srv request_url_dict (history w)) in *.
  set (d := λ c, len c - 1).
  assert (∀ c, c ∈ categories_list →
            ∃ u, request_url_dict !! c = Some u ∧
                 first_terminal srv u (polls u (history w)) (d c) ∧
                 S (d c) = len c ∧
                 (slow_success srv u (polls u (history w)) →
                  len c = 3 ∧ reports_due srv u (polls u (history w)) (d c) = 0) ∧
                 (quick_failure srv u (polls u (history w)) →
                  len c = 2 ∧ reports_due srv u (polls u (history w)) (d c) = 1))
    as Hcases.
  { intros c Hc. destruct (Hseq c Hc) as (u & Eu & Hcase). exists u.
    unfold d, len, sequence_length, reports_due. rewrite Eu.
    destruct Hcase as [(H0 & H1 & H2 & H3)|(H0 & H1)].
    - rewrite decide_False by congruence. simpl. split_and!; [done| |done| |].
      + split; [|done]. intros k Hk.
        destruct k as [|[|k]]; [by rewrite Nat.add_0_r|done|lia].
      + intros _. split; [done|]. by rewrite decide_False.
      + intros [_ H500]. congruence.
    - rewrite decide_True by done. simpl. split_and!; [done| |done| |].
      + split; [|congruence]. intros k Hk.
        destruct k as [|k]; [by rewrite Nat.add_0_r|lia].
      + intros (_ & H202 & _). congruence.
      + intros _. split; [done|]. by rewrite decide_True. }
  assert (rounds_needed d categories_list = list_max (len <$> categories_list)) as HR.
  { unfold rounds_needed.
    rewrite (list_max_fmap_ext (λ c, S (d c)) len).
    - destruct categories_list as [|c l]; [done|].
      destruct (Hcases c) as (u & _ & _ & Hl & _); [set_solver|].
      rewrite fmap_cons. cbn [list_max fold_right]. lia.
    - intros c Hc. by destruct (Hcases c Hc) as (u & _ & _ & Hl & _). }
  destruct (poll_jobs_from_start srv request_url_dict categories_list d w fuel)
    as (ids & w' & E & Hs & _ & Hall); [done|done| |lia|].
  { intros c Hc. destruct (Hcases c Hc) as (u & Eu & Hft & _). by exists u. }
  exists ids, w'. split_and!; [done| |].
  - rewrite Hs, HR.
    assert (1 <= rounds_needed d categories_list) by (unfold rounds_needed; lia). lia.
  - intros c Hc. destruct (Hall c Hc) as (u & Eu & Hp & Hid & Hf).
    destruct (Hcases c Hc) as (u' & Eu' & _ & Hl & Hslow & Hquick).
    assert (u' = u) as -> by congruence.
    exists u. split_and!; [done| |done| |].
    + rewrite Hp. lia.
    + intros Hc3. destruct (Hslow Hc3) as [-> Hr]. split; [done|]. rewrite Hf, Hr. lia.
    + intros Hc2. destruct (Hquick Hc2) as [-> Hr]. split; [done|]. rewrite Hf, Hr. lia.
Qed.

(** ** The merge of a refreshed chunk *)

Section Merge.

Variable parse_datetime : string → option Timestamp.

Lemma key_columns_returns df ij w w' :
  key_columns df w = Returns ij w' →
  w' = w ∧ column_index "start_date" (columns df) = Some ij.1 ∧
  column_index "id" (columns df) = Some ij.2.
Proof.
  unfold key_columns.
  destruct (column_index "start_date" (columns df)) as [i|]; [|done].
  destruct (column_index "id" (columns df)) as [j|]; [|done].
  unfold ret. by intros [= <- <-].
Qed.



End Merge.

(** * The properties on sample runs *)

Ltac by_compute := apply (bool_decide_unpack _); vm_compute; exact I.

(** C2.  The scenario of the specification: [raw_activity_pir.csv] is
    saved and ends at [(2021-10-06T00:00:00.000Z, 42)],
    [raw_door_sensor.csv] does not exist.  The job of the first dataset is
    submitted with [since] at that date and the job of the second without
    [since], and the chunk of the first dataset is appended without its
    first row.  The chunk of the second dataset is not appended: with no
    entry for it in [last_rows], the comparison of line 351 raises
    [KeyError], and [refresh] stops there. *)
Theorem refresh_absent_file_raises :
  refresh sample_parse (sample_server one_pending sample_jobs sample_outputs)
    2 None (CatList [pir; door]) data_dir saved_world
  = Raises (KeyError door)
      {| files := {[ data_dir +:+ pir +:+ ".csv" :=
                       pir_file ++ [["2021-10-07T00:00:00.000Z"; "43"; "0"]] ]};
         history :=
           [ GetOutput "out/door";
             AppendFile (data_dir +:+ pir +:+ ".csv") false;
             StatFile (data_dir +:+ pir +:+ ".csv");
             GetOutput "out/pir";
             GetExports;
             GetJob "job/01" {| reply_id := "job/01"; reply_status := 200 |};
             GetJob "job/00" {| reply_id := "job/00"; reply_status := 200 |};
             Sleep 30;
             GetJob "job/01" {| reply_id := "job/01"; reply_status := 202 |};
             GetJob "job/00" {| reply_id := "job/00"; reply_status := 202 |};
             PostExport {[ "datasets" := JDatasets [door] ]};
             PostExport {[ "datasets" := JDatasets [pir];
                           "since" := JStr "2021-10-06T00:00:00.000Z" ]};
             GetInfo;
             StatFile (data_dir +:+ door +:+ ".csv");
             ReadFile (data_dir +:+ pir +:+ ".csv");
             StatFile (data_dir +:+ pir +:+ ".csv") ] |}.
Proof. vm_compute. reflexivity. Qed.

(** With no saved file at all, the first retrieved chunk already raises. *)
Lemma refresh_without_files_raises :
  ∃ w', refresh sample_parse (sample_server one_pending sample_jobs sample_outputs)
          2 None (CatList [pir; door]) data_dir empty_world
        = Raises (KeyError pir) w' ∧ files w' = ∅.
Proof. eexists. split; vm_compute; reflexivity. Qed.

(** The read path and the write path of [refresh] differ when [save_path]
    does not end with a separator. *)
Lemma refresh_paths_differ :
  os_path_join "./data" pir +:+ ".csv" = "./data/raw_activity_pir.csv" ∧
  "./data" +:+ pir +:+ ".csv" = "./dataraw_activity_pir.csv" ∧
  os_path_join data_dir pir +:+ ".csv" = data_dir +:+ pir +:+ ".csv".
Proof. split_and!; reflexivity. Qed.




(** C5, counterexample.  A job that fails ([202, 500]) and a job that
    completes ([202, 202, 200]) leave the same result: the dict that the
    loop returns holds the job id in both cases. *)
Lemma poll_jobs_keeps_no_status :
  ∃ wf wc,
    poll_jobs (sample_server failing_statuses [] sample_outputs) 3
      {[ pir := "job/00" ]} [pir] (polling_init [pir]) empty_world
    = Returns {[ pir := "job/00" ]} wf ∧
    poll_jobs (sample_server completing_statuses [] sample_outputs) 3
      {[ pir := "job/00" ]} [pir] (polling_init [pir]) empty_world
    = Returns {[ pir := "job/00" ]} wc ∧
    last_reply "job/00" (history wf) = Some {| reply_id := "job/00"; reply_status := 500 |} ∧
    last_reply "job/00" (history wc) = Some {| reply_id := "job/00"; reply_status := 200 |}.
Proof. do 2 eexists. split_and!; vm_compute; reflexivity. Qed.

(** C6, counterexample.  The job of [raw_activity_pir] has two chunks; the
    first is retrieved and the second is answered 503.  The failure is
    reported (it is the last thing [refresh] does), and the file has
    received the first chunk. *)
Lemma refresh_appends_before_failure :
  ∃ w',
    refresh sample_parse (sample_server one_pending two_chunk_jobs second_fails)
      2 None (CatList [pir]) data_dir saved_world = Returns tt w' ∧
    head (history w') = Some (PrintFail 503 (Some pir)) ∧
    files w' !! (data_dir +:+ pir +:+ ".csv") =
      Some (pir_file ++ [["2021-10-07T00:00:00.000Z"; "43"; "0"]]) ∧
    files w' !! (data_dir +:+ pir +:+ ".csv") ≠
      files saved_world !! (data_dir +:+ pir +:+ ".csv").
Proof.
  eexists. split_and!; [vm_compute; reflexivity.. |].
  vm_compute. discriminate.
Qed.


(** C8, witness: two exports in a row, two chunks each, into a file that
    did not exist. *)
Lemma csv_writes_append_only_witness :
  files empty_world !! (data_dir +:+ pir +:+ ".csv") = None ∧
  header_writes (data_dir +:+ pir +:+ ".csv") (history empty_world) = 0 ∧
  (files (session sample_parse (sample_server one_pending two_chunk_jobs sample_outputs)
            two_exports empty_world) !! (data_dir +:+ pir +:+ ".csv") = None ∨
   (∃ hdr more,
      files (session sample_parse (sample_server one_pending two_chunk_jobs sample_outputs)
               two_exports empty_world) !! (data_dir +:+ pir +:+ ".csv")
      = Some (hdr :: more)) ∧
   header_writes (data_dir +:+ pir +:+ ".csv")
     (history (session sample_parse (sample_server one_pending two_chunk_jobs sample_outputs)
                 two_exports empty_world)) = 1).
Proof.
  split; [reflexivity|]. split; [reflexivity|].
  apply (proj1 (proj2 (proj2
    (csv_writes_append_only sample_parse
       (sample_server one_pending two_chunk_jobs sample_outputs)
       two_exports empty_world (data_dir +:+ pir +:+ ".csv"))))); reflexivity.
Defined.

(** The file of the witness after the two exports: one header, four chunks. *)
Lemma two_exports_file :
  files (session sample_parse (sample_server one_pending two_chunk_jobs sample_outputs)
           two_exports empty_world) !! (data_dir +:+ pir +:+ ".csv")
  = Some [ header_line;
           ["2021-10-06T00:00:00.000Z"; "42"; "1"];
           ["2021-10-07T00:00:00.000Z"; "43"; "0"];
           ["2021-10-01T00:00:00.000Z"; "7"; "1"];
           ["2021-10-06T00:00:00.000Z"; "42"; "1"];
           ["2021-10-07T00:00:00.000Z"; "43"; "0"];
           ["2021-10-01T00:00:00.000Z"; "7"; "1"] ].
Proof. vm_compute. reflexivity. Qed.

(** C6, witness: the failing entry stands between two entries that are
    retrieved. *)
Lemma failed_retrieval_is_skipped_witness :
  status_code (output_reply (sample_server one_pending two_chunk_jobs second_fails)
                 (rec_url second_chunk)) ≠ 200%Z ∧
  export_records (sample_server one_pending two_chunk_jobs second_fails) data_dir
    ([first_chunk] ++ second_chunk :: [first_chunk]) saved_world =
  export_records (sample_server one_pending two_chunk_jobs second_fails) data_dir
    [first_chunk]
    (after_failure (sample_server one_pending two_chunk_jobs second_fails) second_chunk None
       (world_of (export_records (sample_server one_pending two_chunk_jobs second_fails)
                    data_dir [first_chunk] saved_world))).
Proof.
  assert (status_code (output_reply (sample_server one_pending two_chunk_jobs second_fails)
                         (rec_url second_chunk)) ≠ 200%Z) as H
    by (vm_compute; discriminate).
  split; [exact H|].
  apply (proj1 (failed_retrieval_is_skipped
                  (sample_server one_pending two_chunk_jobs second_fails)
                  data_dir ∅ pir [first_chunk] second_chunk [first_chunk] saved_world
                  (world_of (export_records
                               (sample_server one_pending two_chunk_jobs second_fails)
                               data_dir [first_chunk] saved_world)) H)).
  vm_compute. reflexivity.
Defined.


Lemma sample_urls_distinct : distinct_locations sample_urls [pir; door].
Proof.
  intros c1 c2 u H1 H2 E1 E2.
  apply elem_of_cons in H1 as [->|H1]; [|apply list_elem_of_singleton in H1 as ->];
  (apply elem_of_cons in H2 as [->|H2]; [|apply list_elem_of_singleton in H2 as ->]);
  try done; vm_compute in E1, E2; congruence.
Defined.

Lemma sample_categories_distinct : NoDup [pir; door].
Proof. by_compute. Defined.

(** C4, witness: one job with the answers 202, 202, 200 and one with the
    answers 202, 500; three rounds. *)
Lemma poll_jobs_terminates_exactly_witness :
  ∃ ids w',
    poll_jobs (sample_server mixed_statuses [] sample_outputs) 3 sample_urls [pir; door]
      (polling_init [pir; door]) empty_world = Returns ids w' ∧
    sleeps (history w') =
      sleeps (history empty_world) + (rounds_needed sample_delays [pir; door] - 1) ∧
    ∀ c, c ∈ [pir; door] →
      ∃ u, sample_urls !! c = Some u ∧
           polls u (history w') = polls u (history empty_world) + S (sample_delays c).
Proof.
  apply (proj1 (proj2 (poll_jobs_terminates_exactly
                         (sample_server mixed_statuses [] sample_outputs)
                         sample_urls [pir; door]))
           sample_delays empty_world 3 sample_categories_distinct sample_urls_distinct).
  - intros c Hc.
    apply elem_of_cons in Hc as [->|Hc]; [|apply list_elem_of_singleton in Hc as ->].
    + exists "job/00". split; [reflexivity|]. split; [|vm_compute; discriminate].
      intros [|[|k]] Hk; [reflexivity..|]. vm_compute in Hk. lia.
    + exists "job/01". split; [reflexivity|]. split; [|vm_compute; discriminate].
      intros [|k] Hk; [reflexivity|]. vm_compute in Hk. lia.
  - vm_compute. lia.
Defined.

(** C5, witness: the same two jobs. *)
Lemma poll_jobs_status_sequences_witness :
  ∃ ids w',
    poll_jobs (sample_server mixed_statuses [] sample_outputs) 3 sample_urls [pir; door]
      (polling_init [pir; door]) empty_world = Returns ids w' ∧
    sleeps (history w') + 1 =
      sleeps (history empty_world) +
      list_max (sequence_length (sample_server mixed_statuses [] sample_outputs)
                  sample_urls (history empty_world) <$> [pir; door]) ∧
    ∀ c, c ∈ [pir; door] →
      ∃ u, sample_urls !! c = Some u ∧
        polls u (history w') =
          polls u (history empty_world) +
          sequence_length (sample_server mixed_statuses [] sample_outputs)
            sample_urls (history empty_world) c ∧
        ids !! c =
          Some (reply_id (job_reply (sample_server mixed_statuses [] sample_outputs) u
                  (polls u (history empty_world) +
                   (sequence_length (sample_server mixed_statuses [] sample_outputs)
                      sample_urls (history empty_world) c - 1)))) ∧
        (slow_success (sample_server mixed_statuses [] sample_outputs) u
           (polls u (history empty_world)) →
         sequence_length (sample_server mixed_statuses [] sample_outputs)
           sample_urls (history empty_world) c = 3 ∧
         failure_reports c (history w') = failure_reports c (history empty_world)) ∧
        (quick_failure (sample_server mixed_statuses [] sample_outputs) u
           (polls u (history empty_world)) →
         sequence_length (sample_server mixed_statuses [] sample_outputs)
           sample_urls (history empty_world) c = 2 ∧
         failure_reports c (history w') = S (failure_reports c (history empty_world))).
Proof.
  apply (poll_jobs_status_sequences (sample_server mixed_statuses [] sample_outputs)
           sample_urls [pir; door] empty_world 3
           sample_categories_distinct sample_urls_distinct).
  - discriminate.
  - intros c Hc.
    apply elem_of_cons in Hc as [->|Hc]; [|apply list_elem_of_singleton in Hc as ->].
    + exists "job/00". split; [reflexivity|]. left.
      split_and!; [reflexivity | reflexivity | vm_compute; discriminate..].
    + exists "job/01". split; [reflexivity|]. right. split; reflexivity.
  - vm_compute. lia.
Defined.

(** The run of the two witnesses: three rounds, two sleeps, three requests
    for the first job and two for the second, one failure report. *)
Lemma mixed_statuses_run :
  poll_jobs (sample_server mixed_statuses [] sample_outputs) 3 sample_urls [pir; door]
    (polling_init [pir; door]) empty_world
  = Returns {[ pir := "job/00"; door := "job/01" ]}
      {| files := ∅;
         history :=
           [ GetJob "job/00" {| reply_id := "job/00"; reply_status := 200 |};
             Sleep 30;
             PrintRequestFailed (Some door);
             GetJob "job/01" {| reply_id := "job/01"; reply_status := 500 |};
             GetJob "job/00" {| reply_id := "job/00"; reply_status := 202 |};
             Sleep 30;
             GetJob "job/01" {| reply_id := "job/01"; reply_status := 202 |};
             GetJob "job/00" {| reply_id := "job/00"; reply_status := 202 |} ] |}.
Proof. vm_compute. reflexivity. Qed.

(** * Further properties of the Downloader *)

(** ** Catalog lookups *)

Lemma odict_get_Some {V} (d : odict V) k v :
  odict_get d k = Some v → (k, v) ∈ d.
Proof.
  induction d as [|[k' v'] d IH]; simpl; [done|].
  case_decide as E; [intros [= ->]; subst; left | intros H; right; auto].
Qed.

Lemma odict_get_is_Some {V} (d : odict V) k :
  is_Some (odict_get d k) ↔ k ∈ d.*1.
Proof.
  induction d as [|[k' v'] d IH]; simpl.
  - split; [by intros [] | by intros ?%elem_of_nil].
  - case_decide as E; [subst; split; [left | by eexists]|].
    rewrite IH, elem_of_cons. naive_solver.
Qed.

Lemma elem_of_concat {A} (x : A) (ls : list (list A)) :
  x ∈ concat ls ↔ ∃ l, x ∈ l ∧ l ∈ ls.
Proof.
  induction ls as [|l ls IH]; simpl.
  - split; [by intros ?%elem_of_nil | by intros (l & _ & ?%elem_of_nil)].
  - rewrite elem_of_app, IH. split.
    + intros [H|(l' & H1 & H2)]; [exists l; split; [done|left] | exists l'; split; [done|by right]].
    + intros (l' & H1 & [->|H2]%elem_of_cons); [by left | right; by exists l'].
Qed.

(** X1.  A group name listed by [get_group_names] (other than 'all') is
    accepted by [get_category_names], and the names it returns are among
    those returned for 'all'; any other name raises [KeyError].  Each of
    the three calls sends the catalog request and nothing else. *)
Theorem group_names_have_categories srv g w :
  g ≠ "all" →
  get_group_names srv w = Returns (categories_doc srv).*1 (record_event GetInfo w) ∧
  get_category_names srv "all" w =
    Returns (concat (categories_doc srv).*2) (record_event GetInfo w) ∧
  (g ∈ (categories_doc srv).*1 →
   ∃ names, get_category_names srv g w = Returns names (record_event GetInfo w) ∧
            names ⊆ concat (categories_doc srv).*2) ∧
  (g ∉ (categories_doc srv).*1 →
   get_category_names srv g w = Raises (KeyError g) (record_event GetInfo w)).
Proof.
  intros Hg. split_and!; [done..| |].
  - intros [names E]%odict_get_is_Some. exists names.
    unfold get_category_names. rewrite decide_False by done.
    unfold bind, get_info, emit, ret; simpl. rewrite E. split; [done|].
    apply odict_get_Some in E. intros c Hc.
    apply elem_of_concat. exists names. split; [done|].
    apply list_elem_of_fmap. by exists (g, names).
  - intros Hn. unfold get_category_names. rewrite decide_False by done.
    unfold bind, get_info, emit, ret; simpl.
    destruct (odict_get (categories_doc srv) g) eqn:E; [|done].
    destruct Hn. apply odict_get_is_Some. by eexists.
Qed.

(** ** Paths *)

Lemma string_app_assoc (a b c : string) : (a +:+ b) +:+ c = a +:+ (b +:+ c).
Proof.
  induction a as [|x a IH]; [done|].
  change (String x ((a +:+ b) +:+ c) = String x (a +:+ (b +:+ c))). by rewrite IH.
Qed.

Lemma endswith_sep_empty_or a :
  endswith_sep a = true → a ≠ "".
Proof. by destruct a. Qed.

(** X2.  [refresh] reads the saved file of a category at
    [os.path.join(save_path, category) + '.csv'] and appends to
    [save_path + category + '.csv'].  For a category that does not start
    with a separator, the two paths are the same when [save_path] is empty
    or ends with a separator, and differ otherwise. *)
Theorem refresh_read_and_write_paths save_path category :
  startswith_sep category = false →
  (save_path = "" ∨ endswith_sep save_path = true →
   os_path_join save_path category +:+ ".csv" = save_path +:+ category +:+ ".csv") ∧
  (save_path ≠ "" → endswith_sep save_path = false →
   os_path_join save_path category +:+ ".csv" ≠ save_path +:+ category +:+ ".csv").
Proof.
  intros Hc. unfold os_path_join. rewrite Hc. split.
  - intros [->|H]; [done|]. rewrite decide_False by (by apply endswith_sep_empty_or).
    rewrite H. by rewrite string_app_assoc.
  - intros Hne He. rewrite decide_False, He by done.
    rewrite !string_app_assoc. intros E. apply (inj (String.app save_path)) in E.
    destruct category as [|c category]; [discriminate|].
    cbn in E. injection E as E _. simpl in Hc. by rewrite <- E in Hc.
Qed.

(** ** What each method adds to the history *)

Lemma adds_refl P w : adds P w w.
Proof. by exists []. Qed.

Lemma adds_trans P w1 w2 w3 : adds P w1 w2 → adds P w2 w3 → adds P w1 w3.
Proof.
  intros (m1 & H1 & F1) (m2 & H2 & F2). exists (m2 ++ m1).
  split; [by rewrite H2, H1, app_assoc | by apply Forall_app].
Qed.

#[local] Instance adds_preorder P : PreOrder (adds P).
Proof. split; [exact (adds_refl P) | exact (adds_trans P)]. Qed.

Lemma adds_record (P : event → Prop) e w : P e → adds P w (record_event e w).
Proof. intros H. exists [e]. split; [done | by constructor]. Qed.

Lemma adds_weaken (P Q : event → Prop) w w' :
  (∀ e, P e → Q e) → adds P w w' → adds Q w w'.
Proof.
  intros H (more & E & F). exists more. split; [done|].
  eapply Forall_impl; [exact F | exact H].
Qed.

Lemma adds_posts (P : event → Prop) w w' :
  (∀ body, ¬ P (PostExport body)) → adds P w w' → posts (history w') = posts (history w).
Proof.
  intros HP (more & -> & F). induction F as [|e more He _ IH]; [done|].
  destruct e; simpl; try done. by destruct (HP body).
Qed.

Lemma adds_polls (P : event → Prop) w w' url :
  (∀ u r, ¬ P (GetJob u r)) → adds P w w' → polls url (history w') = polls url (history w).
Proof.
  intros HP (more & -> & F). induction F as [|e more He _ IH]; [done|].
  destruct e; simpl; try done. by destruct (HP url0 reply).
Qed.

Lemma adds_sleeps (P : event → Prop) w w' :
  (∀ t, ¬ P (Sleep t)) → adds P w w' → sleeps (history w') = sleeps (history w).
Proof.
  intros HP (more & -> & F). induction F as [|e more He _ IH]; [done|].
  destruct e; simpl; try done. by destruct (HP seconds).
Qed.

Lemma adds_requests (P : event → Prop) w w' :
  (∀ e, P e → is_request e = false) → adds P w w' →
  requests (history w') = requests (history w).
Proof.
  intros HP (more & -> & F). unfold requests.
  induction F as [|e more He _ IH]; [done|].
  simpl. rewrite filter_cons. rewrite (HP e He). simpl. exact IH.
Qed.

Lemma adds_header_writes (P : event → Prop) w w' p :
  (∀ q h, ¬ P (AppendFile q h)) → adds P w w' →
  header_writes p (history w') = header_writes p (history w).
Proof.
  intros HP (more & -> & F). induction F as [|e more He _ IH]; [done|].
  destruct e; simpl; try done. by destruct (HP path header).
Qed.

Lemma keeps_adds_emit (P : event → Prop) e : P e → keeps (adds P) (emit e).
Proof. intros H w. by apply adds_record. Qed.

Ltac adds_step :=
  lazymatch goal with
  | |- keeps _ (bind _ _) => apply keeps_bind; [apply _ | | intros ?]
  | |- keeps _ (ret _) => apply keeps_ret; apply _
  | |- keeps _ (raise _) => apply keeps_raise; apply _
  | |- keeps _ (getitem _ _) => apply keeps_getitem; apply _
  | |- keeps _ (emit _) => apply keeps_adds_emit; solve [auto]
  | |- keeps _ (λ w, OutOfFuel w) => apply keeps_out_of_fuel; apply _
  | |- keeps _ (match ?x with _ => _ end) => destruct x
  | |- keeps _ (let _ := _ in _) => cbv zeta
  end.

Create HintDb adds discriminated.

Ltac adds_auto := repeat first [ solve [eauto with adds] | adds_step ].

Section Footprint.

Variable parse_datetime : string → option Timestamp.
Variable srv : Server.
Variable P : event → Prop.

Hypothesis P_info : P GetInfo.
Hypothesis P_post : ∀ body, P (PostExport body).
Hypothesis P_job : ∀ url reply, P (GetJob url reply).
Hypothesis P_exports : P GetExports.
Hypothesis P_output : ∀ url, P (GetOutput url).
Hypothesis P_sleep : ∀ t, P (Sleep t).
Hypothesis P_failed : ∀ c, P (PrintRequestFailed c).
Hypothesis P_fail : ∀ code c, P (PrintFail code c).
Hypothesis P_stat : ∀ p, P (StatFile p).
Hypothesis P_read : ∀ p, P (ReadFile p).
Hypothesis P_append : ∀ p h, P (AppendFile p h).

Lemma adds_read_csv t : keeps (adds P) (read_csv t).
Proof. unfold read_csv. adds_auto. Qed.

Lemma adds_key_columns df : keeps (adds P) (key_columns df).
Proof. unfold key_columns. adds_auto. Qed.
#[local] Hint Resolve adds_read_csv adds_key_columns : adds.

Lemma adds_first_key df : keeps (adds P) (first_key df).
Proof. unfold first_key. adds_auto. Qed.

Lemma adds_last_key df : keeps (adds P) (last_key df).
Proof. unfold last_key. adds_auto. Qed.

Lemma adds_to_datetime date : keeps (adds P) (to_datetime parse_datetime date).
Proof. unfold to_datetime. adds_auto. Qed.

Lemma adds_path_exists p : keeps (adds P) (path_exists p).
Proof. intros w. by apply adds_record. Qed.

Lemma adds_read_csv_file p : keeps (adds P) (read_csv_file p).
Proof.
  intros w. unfold read_csv_file. destruct (files w !! p) as [t|]; [|reflexivity].
  etrans; [apply (adds_record P (ReadFile p)); auto | apply adds_read_csv].
Qed.
#[local] Hint Resolve adds_first_key adds_last_key adds_to_datetime adds_path_exists
  adds_read_csv_file : adds.

Lemma adds_check_current_files until save_path categories export_dict last_rows :
  keeps (adds P)
    (check_current_files parse_datetime until save_path categories export_dict last_rows).
Proof.
  revert export_dict last_rows. induction categories; intros; simpl; adds_auto.
Qed.

Lemma adds_append_csv df path : keeps (adds P) (append_csv df path).
Proof.
  intros w. rewrite append_csv_run. simpl.
  exists [AppendFile path (negb (bool_decide (is_Some (files w !! path)))); StatFile path].
  split; [done|]. repeat constructor; auto.
Qed.

Lemma adds_get_exports : keeps (adds P) (get_exports srv).
Proof. unfold get_exports. adds_auto. Qed.

Lemma adds_get_output url : keeps (adds P) (get_output srv url).
Proof. unfold get_output. adds_auto. Qed.

Lemma adds_ask_index n answers : keeps (adds P) (ask_index n answers).
Proof. induction answers; simpl; adds_auto. Qed.
#[local] Hint Resolve adds_append_csv adds_get_exports adds_get_output adds_ask_index : adds.

Lemma adds_export_records save_path output :
  keeps (adds P) (export_records srv save_path output).
Proof. induction output; simpl; adds_auto. Qed.
#[local] Hint Resolve adds_export_records : adds.

Lemma adds_export_without_reload fuel since until categories save_path answers :
  keeps (adds P)
    (export parse_datetime srv fuel since until false categories save_path answers).
Proof. unfold export. adds_auto. Qed.

Lemma adds_get_info : keeps (adds P) (get_info srv).
Proof. unfold get_info. adds_auto. Qed.

Lemma adds_post_export keys : keeps (adds P) (post_export srv keys).
Proof. intros w. by apply adds_record. Qed.

Lemma adds_get_job url : keeps (adds P) (get_job srv url).
Proof. intros w. by apply adds_record. Qed.

Lemma adds_progress_spinner t : keeps (adds P) (progress_spinner t).
Proof. unfold progress_spinner. adds_auto. Qed.

Lemma adds_content_location_of headers : keeps (adds P) (content_location_of headers).
Proof. unfold content_location_of. adds_auto. Qed.
#[local] Hint Resolve adds_get_info adds_post_export adds_get_job adds_progress_spinner
  adds_content_location_of : adds.

Lemma adds_set_bound name bound keys :
  keeps (adds P) (set_bound parse_datetime name bound keys).
Proof. unfold set_bound, convert_to_ISO. adds_auto. Qed.

Lemma adds_get_category_names name : keeps (adds P) (get_category_names srv name).
Proof. unfold get_category_names. adds_auto. Qed.

Lemma adds_selected category categories : keeps (adds P) (selected category categories).
Proof. unfold selected. adds_auto. Qed.
#[local] Hint Resolve adds_set_bound adds_get_category_names adds_selected : adds.

Lemma adds_select_group group categories datasets :
  keeps (adds P) (select_group group categories datasets).
Proof. revert datasets. induction group; intros; simpl; adds_auto. Qed.
#[local] Hint Resolve adds_select_group : adds.

Lemma adds_select_datasets info categories datasets :
  keeps (adds P) (select_datasets info categories datasets).
Proof. revert datasets. induction info as [|[]]; intros; simpl; adds_auto. Qed.
#[local] Hint Resolve adds_select_datasets : adds.

Lemma adds_wait_for_job fuel job response :
  keeps (adds P) (wait_for_job srv fuel job response).
Proof. revert response. induction fuel; intros; simpl; adds_auto. Qed.
#[local] Hint Resolve adds_wait_for_job : adds.

Lemma adds_export_request fuel categories since until :
  keeps (adds P) (_export_request parse_datetime srv fuel categories since until).
Proof. unfold _export_request, request_keys. adds_auto. Qed.

Lemma adds_check_available categories_list available :
  keeps (adds P) (check_available categories_list available).
Proof. induction categories_list; simpl; adds_auto. Qed.

Lemma adds_build_export_key_list export_dict categories_list acc :
  keeps (adds P) (build_export_key_list parse_datetime export_dict categories_list acc).
Proof.
  revert acc. induction categories_list; intros; simpl;
    unfold bounds_of, category_keys; adds_auto.
Qed.

Lemma adds_schedule_jobs categories_list export_key_list acc :
  keeps (adds P) (schedule_jobs srv categories_list export_key_list acc).
Proof. revert acc. induction categories_list; intros; simpl; adds_auto. Qed.

Lemma adds_poll_round urls categories_list st :
  keeps (adds P) (poll_round srv urls categories_list st).
Proof. revert st. induction categories_list; intros; simpl; adds_auto. Qed.
#[local] Hint Resolve adds_check_available adds_build_export_key_list adds_schedule_jobs
  adds_poll_round : adds.

Lemma adds_poll_jobs fuel urls categories_list st :
  keeps (adds P) (poll_jobs srv fuel urls categories_list st).
Proof. revert st. induction fuel; intros; simpl; adds_auto. Qed.
#[local] Hint Resolve adds_poll_jobs : adds.

Lemma adds_export_request_parallel fuel export_dict :
  keeps (adds P) (_export_request_parallel parse_datetime srv fuel export_dict).
Proof. unfold _export_request_parallel. adds_auto. Qed.

End Footprint.

Lemma check_current_files_untouched parse_datetime until save_path categories :
  ∀ export_dict last_rows,
    keeps untouched
      (check_current_files parse_datetime until save_path categories export_dict last_rows).
Proof.
  induction categories; intros; simpl; keeps_auto.
  all: apply keeps_to_datetime.
Qed.

(** X3.  The scan of the saved files with which [refresh] starts (lines
    318-331) only looks at files: however it ends, it has sent no request,
    submitted nothing and written nothing. *)
Theorem refresh_scan_is_local parse_datetime until save_path categories export_dict
    last_rows w :
  adds file_lookup w
    (world_of (check_current_files parse_datetime until save_path categories
                 export_dict last_rows w)) ∧
  files (world_of (check_current_files parse_datetime until save_path categories
                     export_dict last_rows w)) = files w ∧
  requests (history (world_of (check_current_files parse_datetime until save_path
                                 categories export_dict last_rows w)))
  = requests (history w).
Proof.
  pose proof (adds_check_current_files parse_datetime file_lookup
                (λ _, I) (λ _, I) until save_path categories export_dict last_rows w) as H.
  split_and!; [done | |].
  - apply (check_current_files_untouched parse_datetime until save_path categories
             export_dict last_rows w).
  - apply (adds_requests file_lookup); [|done]. by intros [].
Qed.

(** X4.  [export] called with [reload=False] submits no job, asks for no
    job status and never sleeps: what it adds to the history are the job
    listing, the retrievals with their failure reports, and the file
    writes with the lookups before them. *)
Theorem export_without_reload_submits_nothing parse_datetime srv fuel since until
    categories save_path answers w :
  adds download_step w
    (world_of (export parse_datetime srv fuel since until false categories
                 save_path answers w)) ∧
  posts (history (world_of (export parse_datetime srv fuel since until false categories
                              save_path answers w))) = posts (history w) ∧
  (∀ url, polls url (history (world_of (export parse_datetime srv fuel since until false
                                          categories save_path answers w)))
          = polls url (history w)) ∧
  sleeps (history (world_of (export parse_datetime srv fuel since until false categories
                               save_path answers w))) = sleeps (history w).
Proof.
  pose proof (adds_export_without_reload parse_datetime srv download_step
                I (λ _, I) (λ _ _, I) (λ _, I) (λ _ _, I)
                fuel since until categories save_path answers w) as H.
  split_and!; [done | | |].
  - apply (adds_posts download_step); [by intros ? [] | done].
  - intros url. apply (adds_polls download_step); [by intros ? ? [] | done].
  - apply (adds_sleeps download_step); [by intros ? [] | done].
Qed.

(** X5.  [_export_request] and [_export_request_parallel] only talk to the
    job interface: however they end, what they add to the history are the
    catalog request, submissions, status requests, sleeps and failure
    reports.  They retrieve no output, do not ask for the job listing, and
    neither look at nor write a file. *)
Theorem export_requests_stay_off_files parse_datetime srv fuel categories since until
    export_dict w :
  adds job_step w
    (world_of (_export_request parse_datetime srv fuel categories since until w)) ∧
  files (world_of (_export_request parse_datetime srv fuel categories since until w))
  = files w ∧
  adds job_step w
    (world_of (_export_request_parallel parse_datetime srv fuel export_dict w)) ∧
  files (world_of (_export_request_parallel parse_datetime srv fuel export_dict w))
  = files w.
Proof.
  split_and!.
  - apply (adds_export_request parse_datetime srv job_step
             I (λ _, I) (λ _ _, I) (λ _, I) (λ _, I)).
  - apply (keeps_export_request parse_datetime srv fuel categories since until w).
  - apply (adds_export_request_parallel parse_datetime srv job_step
             I (λ _, I) (λ _ _, I) (λ _, I) (λ _, I)).
  - apply (keeps_export_request_parallel parse_datetime srv fuel export_dict w).
Qed.

(** ** The scan of the saved files *)

Lemma odict_keys_set {V} k (v : V) d :
  odict_keys (odict_set k v d) =
  if bool_decide (k ∈ odict_keys d) then odict_keys d else odict_keys d ++ [k].
Proof.
  unfold odict_keys. induction d as [|[k' v'] d IH]; [done|].
  cbn [odict_set]. destruct (decide (k' = k)) as [->|E].
  - rewrite bool_decide_eq_true_2 by (rewrite fmap_cons; left). done.
  - rewrite !fmap_cons. cbn [fst]. rewrite IH.
    destruct (bool_decide (k ∈ d.*1)) eqn:Hin.
    + apply bool_decide_eq_true in Hin. rewrite bool_decide_eq_true_2 by (by right). done.
    + apply bool_decide_eq_false in Hin.
      rewrite bool_decide_eq_false_2; [done|].
      intros [?|?]%elem_of_cons; [by subst|done].
Qed.

Lemma elem_of_odict_keys_set {V} k (v : V) d c :
  c ∈ odict_keys (odict_set k v d) ↔ c = k ∨ c ∈ odict_keys d.
Proof.
  rewrite odict_keys_set. case_bool_decide as Hin.
  - split; [by right | intros [->|?]; done].
  - rewrite elem_of_app, list_elem_of_singleton. naive_solver.
Qed.

Lemma NoDup_odict_keys_set {V} k (v : V) d :
  NoDup (odict_keys d) → NoDup (odict_keys (odict_set k v d)).
Proof.
  intros H. rewrite odict_keys_set. case_bool_decide as Hin; [done|].
  apply NoDup_app. split_and!; [done| |apply NoDup_singleton].
  intros x Hx ->%list_elem_of_singleton. done.
Qed.

Lemma odict_get_set {V} k (v : V) d k' :
  odict_get (odict_set k v d) k' = if decide (k = k') then Some v else odict_get d k'.
Proof.
  induction d as [|[k0 v0] d IH]; simpl.
  - by case_decide.
  - destruct (decide (k0 = k)) as [->|Hne]; simpl.
    + by destruct (decide (k = k')).
    + destruct (decide (k0 = k')) as [->|Hne'].
      * by rewrite decide_False by congruence.
      * exact IH.
Qed.

Lemma check_current_files_scanned parse_datetime until save_path categories :
  ∀ export_dict last_rows w res w',
    check_current_files parse_datetime until save_path categories export_dict last_rows w
      = Returns res w' →
    (∀ c, c ∈ odict_keys export_dict →
       scanned parse_datetime (files w) until save_path c
         (odict_get export_dict c) (last_rows !! c)) →
    (∀ c, c ∉ odict_keys export_dict → last_rows !! c = None) →
    NoDup (odict_keys export_dict) →
    (∀ c, c ∈ odict_keys res.1 ↔ c ∈ odict_keys export_dict ∨ c ∈ categories) ∧
    (∀ c, c ∈ odict_keys res.1 →
       scanned parse_datetime (files w) until save_path c
         (odict_get res.1 c) (res.2 !! c)) ∧
    (∀ c, c ∉ odict_keys res.1 → res.2 !! c = None) ∧
    NoDup (odict_keys res.1).
Proof.
  induction categories as [|category rest IH];
    intros export_dict last_rows w res w' H Hin Hout Hnd.
  - simpl in H. unfold ret in H. injection H as <- <-.
    split_and!; [|done..]. intros c. rewrite elem_of_nil. naive_solver.
  - cbn [check_current_files] in H. cbv zeta in H.
    unfold bind at 1 in H. unfold path_exists at 1 in H.
    destruct (files w !! (os_path_join save_path category +:+ ".csv"))
      as [t|] eqn:Efile; simpl in H.
    + unfold bind at 1 in H. unfold read_csv_file at 1 in H. simpl in H.
      rewrite Efile in H. destruct t as [|cols body]; [done|].
      simpl in H. bind_inv H. unfold last_key in H0. bind_inv H0.
      apply key_columns_returns in H1 as (-> & Hi & Hj). simpl in H0, Hi, Hj.
      destruct (last body) as [last_row|] eqn:Elast; [|done].
      unfold ret in H0. injection H0 as <- <-.
      bind_inv H. destruct (parse_datetime (row_key a0 last_row).1) as [ts|] eqn:Eparse;
        [|done].
      unfold ret in H0. injection H0 as <- <-.
      apply IH in H as (Hkeys & Hscan & Hnone & Hnd').
      * split_and!; [|done..]. intros c. rewrite Hkeys, elem_of_odict_keys_set, elem_of_cons.
        naive_solver.
      * intros c Hc. simpl. rewrite odict_get_set.
        destruct (decide (category = c)) as [->|Hne].
        -- rewrite lookup_insert_eq. unfold scanned. rewrite Efile.
           exists (row_key a0 last_row), ts. split_and!; [|done..].
           exists cols, body, last_row, a0.1, a0.2. by destruct a0.
        -- rewrite lookup_insert_ne by done. apply Hin.
           apply elem_of_odict_keys_set in Hc as [->|Hc]; done.
      * intros c Hc. simpl. rewrite elem_of_odict_keys_set in Hc.
        rewrite lookup_insert_ne by naive_solver. apply Hout. naive_solver.
      * by apply NoDup_odict_keys_set.
    + apply IH in H as (Hkeys & Hscan & Hnone & Hnd').
      * split_and!; [|done..]. intros c. rewrite Hkeys, elem_of_odict_keys_set, elem_of_cons.
        naive_solver.
      * intros c Hc. simpl. rewrite odict_get_set.
        destruct (decide (category = c)) as [->|Hne].
        -- unfold scanned. rewrite Efile. split; [done|].
           destruct (decide (c ∈ odict_keys export_dict)) as [Hd|Hd].
           ++ specialize (Hin c Hd). unfold scanned in Hin. rewrite Efile in Hin. tauto.
           ++ by apply Hout.
        -- apply Hin. apply elem_of_odict_keys_set in Hc as [->|Hc]; done.
      * intros c Hc. simpl. rewrite elem_of_odict_keys_set in Hc. apply Hout. naive_solver.
      * by apply NoDup_odict_keys_set.
Qed.

(** X6.  When the scan of [refresh] (lines 318-331) succeeds, [export_dict]
    has one entry per distinct category, and for every category: if its
    file [os.path.join(save_path, category) + '.csv'] does not exist, its
    job has [since = None] and it has no anchor in [last_rows]; if the file
    exists, [since] is the timestamp of the start_date of its last line and
    its anchor is the (start_date, id) pair of that line.  The [until] of
    every entry is the [until] of the call. *)
Theorem refresh_scan_outcome parse_datetime until save_path categories w
    export_dict last_rows w' :
  check_current_files parse_datetime until save_path categories [] ∅ w
    = Returns (export_dict, last_rows) w' →
  NoDup (odict_keys export_dict) ∧
  (∀ c, c ∈ odict_keys export_dict ↔ c ∈ categories) ∧
  (∀ c, c ∈ categories →
     scanned parse_datetime (files w) until save_path c
       (odict_get export_dict c) (last_rows !! c)) ∧
  (∀ c, c ∉ categories → last_rows !! c = None).
Proof.
  intros H.
  apply check_current_files_scanned in H as (Hkeys & Hscan & Hnone & Hnd).
  - simpl in *. split_and!; [done| | |].
    + intros c. rewrite Hkeys. rewrite elem_of_nil. naive_solver.
    + intros c Hc. apply Hscan, Hkeys. by right.
    + intros c Hc. apply Hnone. rewrite Hkeys. rewrite elem_of_nil. naive_solver.
  - by intros c ?%elem_of_nil.
  - intros c _. apply lookup_empty.
  - constructor.
Qed.

(** ** A category without an anchor *)


Lemma merge_chunk_no_anchor save_path last_rows category content w :
  last_rows !! category = None →
  ∃ e, merge_chunk save_path last_rows category content w = Raises e w ∧
       ∀ cols r rest i j,
         text content = cols :: r :: rest →
         column_index "start_date" cols = Some i → column_index "id" cols = Some j →
         e = KeyError category.
Proof.
  intros Hnone. unfold merge_chunk, read_csv.
  destruct (text content) as [|cols body]; simpl.
  { exists EmptyDataError. split; [done|]. by intros ????? [=]. }
  unfold bind at 1; simpl. unfold first_key, key_columns; simpl.
  destruct (column_index "start_date" cols) as [i|] eqn:Ei.
  2:{ eexists. split; [done|]. intros ????? [= <- _] Hi. congruence. }
  destruct (column_index "id" cols) as [j|] eqn:Ej.
  2:{ eexists. split; [done|]. intros ????? [= <- _] _ Hj. congruence. }
  unfold bind at 2; simpl.
  destruct body as [|r rest].
  { eexists. split; [done|]. by intros ????? [=]. }
  unfold bind at 1; simpl. unfold getitem. rewrite Hnone.
  eexists. split; [done|]. done.
Qed.

(** X7.  For a category with no entry in [last_rows] (a dataset without a
    saved file), the chunk loop of [refresh] (lines 344-357) writes
    nothing, whatever the retrievals answer, and as soon as one chunk is
    retrieved with code 200 it raises instead of returning; when that
    chunk has the two key columns and a row, the exception is
    [KeyError(category)]. *)
Theorem refresh_without_anchor_appends_nothing srv save_path last_rows category output w :
  last_rows !! category = None →
  files (world_of (refresh_chunks srv save_path last_rows category output w)) = files w ∧
  (Exists (λ record, status_code (output_reply srv (rec_url record)) = 200%Z) output →
   ∃ e w', refresh_chunks srv save_path last_rows category output w = Raises e w') ∧
  (∀ before record after cols r rest i j,
     output = before ++ record :: after →
     Forall (λ record, status_code (output_reply srv (rec_url record)) ≠ 200%Z) before →
     status_code (output_reply srv (rec_url record)) = 200%Z →
     text (output_reply srv (rec_url record)) = cols :: r :: rest →
     column_index "start_date" cols = Some i → column_index "id" cols = Some j →
     ∃ w', refresh_chunks srv save_path last_rows category output w
           = Raises (KeyError category) w').
Proof.
  intros Hnone.
  assert (∀ record after w0,
            status_code (output_reply srv (rec_url record)) = 200%Z →
            ∃ e, refresh_chunks srv save_path last_rows category (record :: after) w0
                 = Raises e (record_event (GetOutput (rec_url record)) w0) ∧
                 ∀ cols r rest i j,
                   text (output_reply srv (rec_url record)) = cols :: r :: rest →
                   column_index "start_date" cols = Some i →
                   column_index "id" cols = Some j → e = KeyError category) as Hok.
  { intros record after w0 H200. cbn [refresh_chunks].
    unfold bind at 1, get_output, emit, ret; simpl. unfold bind at 1; simpl.
    rewrite decide_False by (intros ?; done).
    destruct (merge_chunk_no_anchor save_path last_rows category
                (output_reply srv (rec_url record))
                (record_event (GetOutput (rec_url record)) w0) Hnone) as (e & -> & He).
    by exists e. }
  split_and!.
  - revert w. induction output as [|record after IH]; intros w; [done|].
    destruct (decide (status_code (output_reply srv (rec_url record)) = 200%Z)) as [E|E].
    + by destruct (Hok record after w E) as (e & -> & _).
    + rewrite refresh_chunks_failure by done. by rewrite IH.
  - intros Hex. revert w. induction Hex as [record after E|record after _ IH]; intros w.
    + destruct (Hok record after w E) as (e & -> & _). by eexists _, _.
    + destruct (decide (status_code (output_reply srv (rec_url record)) = 200%Z)) as [E|E].
      * destruct (Hok record after w E) as (e & -> & _). by eexists _, _.
      * rewrite refresh_chunks_failure by done. apply IH.
  - intros before record after cols r rest i j -> Hbefore H200 Htext Hi Hj.
    revert w. induction Hbefore as [|b before Hb _ IH]; intros w.
    + change ([] ++ record :: after) with (record :: after).
      destruct (Hok record after w H200) as (e & -> & He).
      rewrite (He cols r rest i j) by done. by eexists.
    + change ((b :: before) ++ record :: after) with (b :: (before ++ record :: after)).
      rewrite refresh_chunks_failure by done. apply IH.
Qed.

(** ** The job whose output is downloaded *)

Lemma find_app_skip {A} (P : A → bool) l1 l2 :
  Forall (λ x, P x = false) l1 → find P (l1 ++ l2) = find P l2.
Proof. induction 1 as [|x l1 Hx _ IH]; [done|]. simpl. by rewrite Hx. Qed.

Lemma find_none {A} (P : A → bool) l :
  Forall (λ x, P x = false) l → find P l = None.
Proof. induction 1 as [|x l1 Hx _ IH]; [done|]. simpl. by rewrite Hx. Qed.

(** X8.  Among the jobs of the listing that carry the job id, [refresh]
    takes the output of the one that comes last in the listing (lines
    339-342); when no job carries the id, [output] keeps the value it had,
    that of the previous category. *)
Theorem find_output_takes_last data job output :
  (∀ before j after,
     data = before ++ j :: after → job_id j = job →
     Forall (λ j', job_id j' ≠ job) after →
     find_output data job output = Some (job_output j)) ∧
  (Forall (λ j', job_id j' ≠ job) data → find_output data job output = output).
Proof.
  split.
  - intros before j after -> Hj Hafter. unfold find_output.
    rewrite rev_app_distr. simpl. rewrite <- app_assoc. simpl.
    rewrite find_app_skip.
    + simpl. by rewrite bool_decide_eq_true_2.
    + apply Forall_forall. intros x Hx. apply bool_decide_eq_false_2.
      rewrite Forall_forall in Hafter. apply Hafter.
      by apply list_elem_of_In, in_rev, list_elem_of_In.
  - intros Hall. unfold find_output. rewrite find_none; [done|].
    apply Forall_forall. intros x Hx. apply bool_decide_eq_false_2.
    rewrite Forall_forall in Hall. apply Hall.
    by apply list_elem_of_In, in_rev, list_elem_of_In.
Qed.

(** ** The single export *)

Lemma selected_returns category categories w b w' :
  selected category categories w = Returns b w' → w' = w.
Proof. destruct categories; simpl; unfold ret, raise; by intros [= _ <-]. Qed.

Lemma select_group_returns group categories : ∀ datasets w ds w',
  select_group group categories datasets w = Returns ds w' → w' = w.
Proof.
  induction group as [|category group IH]; intros datasets w ds w' H; simpl in H.
  - unfold ret in H. by injection H as _ <-.
  - bind_inv H. apply selected_returns in H0 as ->. by apply IH in H.
Qed.

Lemma select_datasets_returns info categories : ∀ datasets w ds w',
  select_datasets info categories datasets w = Returns ds w' → w' = w.
Proof.
  induction info as [|[key group] info IH]; intros datasets w ds w' H; simpl in H.
  - unfold ret in H. by injection H as _ <-.
  - bind_inv H. apply select_group_returns in H0 as ->. by apply IH in H.
Qed.

Lemma request_keys_returns parse_datetime srv categories since until w keys w' :
  request_keys parse_datetime srv categories since until w = Returns keys w' →
  w' = record_event GetInfo w.
Proof.
  unfold request_keys. intros H.
  bind_inv H. apply set_bound_returns in H0 as (-> & _).
  bind_inv H. apply set_bound_returns in H0 as (-> & _).
  bind_inv H. unfold get_info, bind, emit, ret in H0. injection H0 as <- <-.
  bind_inv H. apply select_datasets_returns in H0 as ->.
  unfold ret in H. by injection H as _ <-.
Qed.

Lemma wait_for_job_run srv job p D :
  first_terminal srv job p D →
  ∀ n k fuel w,
    k + n = D → n < fuel → polls job (history w) = p + k + 1 →
    ∃ w',
      wait_for_job srv fuel job (job_reply srv job (p + k)) w = Returns tt w' ∧
      polls job (history w') = p + D + 1 ∧
      sleeps (history w') = sleeps (history w) + n ∧
      posts (history w') = posts (history w) ∧
      files w' = files w ∧
      single_failure_reports (history w') =
        single_failure_reports (history w) + reports_due srv job p D.
Proof.
  intros [H202 Hfinal]. induction n as [|n IH]; intros k fuel w HD Hfuel Hp.
  - destruct fuel as [|fuel]; [lia|]. assert (k = D) as -> by lia. simpl.
    rewrite decide_False by done. unfold reports_due.
    destruct (decide (reply_status (job_reply srv job (p + D)) = 500%Z)).
    + eexists. split; [reflexivity|]. simpl. split_and!; [lia..|done|done|lia].
    + eexists. split; [reflexivity|]. simpl. split_and!; [lia..|done|done|lia].
  - destruct fuel as [|fuel]; [lia|]. simpl.
    rewrite decide_True by (apply H202; lia).
    unfold bind at 1, get_job; simpl. unfold bind at 1; simpl.
    rewrite Hp. replace (p + k + 1) with (p + S k) by lia.
    destruct (IH (S k) fuel
                (record_event (Sleep 30)
                   (record_event (GetJob job (job_reply srv job (p + S k))) w)))
      as (w' & E & Hpolls & Hsleeps & Hposts & Hfiles & Hrep); [lia|lia| |].
    { simpl. rewrite decide_True by done. lia. }
    exists w'. simpl in *. split_and!; [done|done|lia|done|done|done].
Qed.

(** X9.  When the payload is built, the submission is answered with a job
    location, and the job answers 202 [D] times and then something else,
    [_export_request] returns (with more than [D] iterations allowed): it
    has posted once, asked the job location [D + 1] times, slept [D]
    times, and printed "Request failed" once if the final status is 500
    and not at all otherwise; it returns normally in both cases. *)
Theorem export_request_run parse_datetime srv fuel categories since until w keys w1 job D :
  request_keys parse_datetime srv categories since until w = Returns keys w1 →
  content_location srv (posts (history w)) keys = Some job →
  first_terminal srv job (polls job (history w)) D →
  D < fuel →
  ∃ w',
    _export_request parse_datetime srv fuel categories since until w = Returns tt w' ∧
    posts (history w') = S (posts (history w)) ∧
    polls job (history w') = polls job (history w) + D + 1 ∧
    sleeps (history w') = sleeps (history w) + D ∧
    single_failure_reports (history w') =
      single_failure_reports (history w) +
      reports_due srv job (polls job (history w)) D ∧
    files w' = files w.
Proof.
  intros Hkeys Hloc Hterm Hfuel.
  pose proof (request_keys_returns _ _ _ _ _ _ _ _ Hkeys) as ->.
  unfold _export_request. rewrite (bind_returns _ _ _ _ _ Hkeys).
  unfold bind at 1, post_export; simpl. rewrite Hloc.
  unfold bind at 1; simpl. unfold bind at 1, get_job; simpl.
  destruct (wait_for_job_run srv job (polls job (history w)) D Hterm D 0 fuel
              (record_event (GetJob job (job_reply srv job (polls job (history w))))
                 (record_event (PostExport keys) (record_event GetInfo w))))
    as (w' & E & Hpolls & Hsleeps & Hposts & Hfiles & Hrep); [lia|lia| |].
  { simpl. rewrite decide_True by done. lia. }
  rewrite Nat.add_0_r in E.
  exists w'. simpl in *. split_and!; [done|done|lia|lia|done|done].
Qed.

Lemma wait_for_job_final srv job fuel : ∀ response w w',
  last_reply job (history w) = Some response →
  wait_for_job srv fuel job response w = Returns tt w' →
  ∃ r, last_reply job (history w') = Some r ∧ reply_status r ≠ 202%Z.
Proof.
  induction fuel as [|fuel IH]; intros response w w' Hlast H; simpl in H; [done|].
  destruct (decide (reply_status response = 202%Z)) as [E|E].
  - unfold bind at 1, get_job in H; simpl in H. unfold bind at 1 in H; simpl in H.
    apply IH in H; [done|]. simpl. by rewrite decide_True.
  - destruct (decide (reply_status response = 500%Z)).
    + unfold emit in H. injection H as <-. by exists response.
    + unfold ret in H. injection H as <-. by exists response.
Qed.

(** X10.  [_export_request] never returns while its job is pending:
    whenever it returns, the submission was answered with a job location
    and the last answer of that location is not 202. *)
Theorem export_request_returns_final parse_datetime srv fuel categories since until w w' :
  _export_request parse_datetime srv fuel categories since until w = Returns tt w' →
  ∃ keys job r,
    content_location srv (posts (history w)) keys = Some job ∧
    last_reply job (history w') = Some r ∧ reply_status r ≠ 202%Z.
Proof.
  unfold _export_request. intros H. bind_inv H.
  pose proof (request_keys_returns _ _ _ _ _ _ _ _ H0) as ->.
  unfold bind at 1, post_export in H; simpl in H.
  destruct (content_location srv (posts (history w)) a) as [job|] eqn:Eloc; [|done].
  unfold bind at 1 in H; simpl in H. unfold bind at 1, get_job in H; simpl in H.
  apply wait_for_job_final in H as (r & Hr & Hfinal).
  - by exists a, job, r.
  - simpl. by rewrite decide_True.
Qed.

(** ** Submissions of the parallel export *)


(** ** What the parallel export returns *)

Lemma ids_inv_answer categories_list st c b id :
  c ∈ categories_list → ids_inv categories_list st →
  ids_inv categories_list
    {| waiting_for := <[c := b]> (waiting_for st);
       job_id_dict := <[c := id]> (job_id_dict st) |}.
Proof.
  intros Hc (H1 & H2 & H3). split_and!; simpl.
  - intros c' Hc'. destruct (decide (c = c')) as [->|Hne].
    + intros _. rewrite lookup_insert_eq. by eexists.
    + rewrite !lookup_insert_ne by done. by apply H1.
  - intros c'. destruct (decide (c = c')) as [->|Hne]; [done|].
    rewrite lookup_insert_ne by done. apply H2.
  - intros c' Hc'. destruct (decide (c = c')) as [->|Hne].
    + rewrite lookup_insert_eq. by eexists.
    + rewrite lookup_insert_ne by done. by apply H3.
Qed.

Lemma poll_round_ids srv urls categories_list todo : ∀ st w st' w',
  todo ⊆ categories_list →
  ids_inv categories_list st →
  poll_round srv urls todo st w = Returns st' w' →
  ids_inv categories_list st'.
Proof.
  induction todo as [|c rest IH]; intros st w st' w' Hsub Hinv; simpl.
  - unfold ret. by intros [= <- _].
  - assert (c ∈ categories_list) as Hc by set_solver.
    assert (rest ⊆ categories_list) as Hrest by set_solver.
    unfold getitem at 1. destruct (waiting_for st !! c) as [[|]|] eqn:Ew;
      unfold bind at 1; simpl; [|by apply IH|done].
    unfold getitem. destruct (urls !! c) as [u|] eqn:Eu;
      unfold bind at 1; simpl; [|done].
    unfold bind at 1; simpl.
    set (r := job_reply srv u (polls u (history w))).
    destruct (decide (reply_status r = 202%Z)) as [E|E].
    + apply IH; [done|]. by apply ids_inv_answer.
    + destruct (decide (reply_status r = 500%Z)); [unfold bind at 1; simpl|];
        (apply IH; [done|]); by apply ids_inv_answer.
Qed.

Lemma poll_jobs_ids srv urls categories_list fuel : ∀ st w ids w',
  ids_inv categories_list st →
  poll_jobs srv fuel urls categories_list st w = Returns ids w' →
  ∀ c, is_Some (ids !! c) ↔ c ∈ categories_list.
Proof.
  induction fuel as [|fuel IH]; intros st w ids w' Hinv; simpl; [done|].
  intros H. bind_inv H.
  apply (poll_round_ids srv urls categories_list) in H0; [|done..].
  destruct (still_waiting a) eqn:Esw.
  - unfold bind in H; simpl in H.
    exact (IH a (record_event (Sleep 30) w0) ids w' H0 H).
  - unfold ret in H. injection H as <- <-.
    destruct H0 as (H1 & H2 & H3). intros c. split; [apply H2|].
    intros Hc. apply H1; [done|].
    rewrite still_waiting_false in Esw.
    destruct (H3 c Hc) as [[|] Ew]; [by apply Esw in Ew | done].
Qed.

Lemma ids_inv_init categories_list : ids_inv categories_list (polling_init categories_list).
Proof.
  split_and!.
  - intros c Hc. rewrite polling_init_lookup. by rewrite bool_decide_eq_true_2.
  - intros c [? H]. simpl in H. by rewrite lookup_empty in H.
  - intros c Hc. rewrite polling_init_lookup, bool_decide_eq_true_2 by done. by eexists.
Qed.

Lemma check_available_returns categories_list available w w' :
  check_available categories_list available w = Returns tt w' →
  w' = w ∧ Forall (λ c, c ∈ available) categories_list.
Proof.
  induction categories_list as [|c rest IH]; simpl.
  - unfold ret. by intros [= <-].
  - case_bool_decide; [|done]. intros [-> H']%IH. split; [done | by constructor].
Qed.

Lemma build_export_key_list_returns parse_datetime export_dict categories_list :
  ∀ acc w ekl w',
    build_export_key_list parse_datetime export_dict categories_list acc w
      = Returns ekl w' → w' = w.
Proof.
  induction categories_list as [|c rest IH]; intros acc w ekl w' H; simpl in H.
  - unfold ret in H. by injection H as _ <-.
  - bind_inv H. unfold bounds_of in H0.
    destruct (odict_get export_dict c); [|done]. unfold ret in H0. injection H0 as <- <-.
    bind_inv H. unfold category_keys in H0. bind_inv H0.
    apply set_bound_returns in H1 as (-> & _).
    apply set_bound_returns in H0 as (-> & _). by apply IH in H.
Qed.

Lemma schedule_jobs_returns srv export_key_list categories_list :
  ∀ acc w urls w',
    schedule_jobs srv categories_list export_key_list acc w = Returns urls w' →
    posts (history w') = posts (history w) + length categories_list ∧
    files w' = files w.
Proof.
  induction categories_list as [|c rest IH]; intros acc w urls w' H; simpl in H.
  - unfold ret in H. injection H as _ <-. split; [simpl; lia | done].
  - bind_inv H. unfold getitem in H0. destruct (export_key_list !! c) as [keys|]; [|done].
    unfold ret in H0. injection H0 as <- <-.
    unfold bind at 1, post_export in H; simpl in H.
    bind_inv H. unfold content_location_of in H0.
    destruct (content_location srv (posts (history w)) keys); [|done].
    unfold ret in H0. injection H0 as <- <-.
    apply IH in H as [Hp Hf]. simpl in *. split; [lia | done].
Qed.

(** X12.  When [_export_request_parallel] returns, every key of
    [export_dict] is in the catalog, exactly one job per key has been
    submitted, and the returned dict holds a job id for every key and for
    nothing else (so the lookup [job_id_dict[category]] of [refresh] cannot
    fail for the categories it scanned). *)
Theorem export_request_parallel_result parse_datetime srv fuel export_dict w ids w' :
  _export_request_parallel parse_datetime srv fuel export_dict w = Returns ids w' →
  Forall (λ c, c ∈ concat (categories_doc srv).*2) (odict_keys export_dict) ∧
  posts (history w') = posts (history w) + length (odict_keys export_dict) ∧
  (∀ c, is_Some (ids !! c) ↔ c ∈ odict_keys export_dict).
Proof.
  unfold _export_request_parallel. intros H.
  unfold bind at 1, get_category_names in H; simpl in H.
  unfold bind at 1, get_info, emit, ret in H; simpl in H.
  bind_inv H. destruct a. apply check_available_returns in H0 as [-> Havail].
  bind_inv H. apply build_export_key_list_returns in H0 as ->.
  bind_inv H. apply schedule_jobs_returns in H0 as [Hposts _]. simpl in Hposts.
  split_and!; [done| |].
  - rewrite <- Hposts.
    apply (adds_posts not_a_post); [by intros ? [] |].
    pose proof (adds_poll_jobs srv not_a_post (λ _ _, I) (λ _, I) (λ _, I)
                  fuel a0 (odict_keys export_dict)
                  (polling_init (odict_keys export_dict)) w0) as Hadds.
    by rewrite H in Hadds.
  - eapply poll_jobs_ids; [apply ids_inv_init | exact H].
Qed.

(** ** The job that [export] downloads *)




(** ** The text of a date *)






(** ** The datasets of the single export *)

Lemma prefix_spec s t : String.prefix s t = true ↔ ∃ post, t = s +:+ post.
Proof.
  revert t. induction s as [|a s IH]; intros t.
  - split; [intros _; by exists t | by destruct t].
  - destruct t as [|b t]; simpl.
    + split; [done | by intros [post [=]]].
    + destruct (Ascii.ascii_dec a b) as [->|Hne].
      * rewrite IH. split; intros [post E]; exists post.
        -- by rewrite E.
        -- by injection E.
      * split; [done|]. intros [post E]. injection E as E1 E2. by destruct Hne.
Qed.

Lemma is_substring_spec s t : is_substring s t = true ↔ occurs_in s t.
Proof.
  induction t as [|b t IH].
  - cbn [is_substring]. rewrite orb_false_r, prefix_spec. split.
    + intros [post E]. by exists "", post.
    + intros (pre & post & E). destruct pre; [by exists post|discriminate].
  - cbn [is_substring]. rewrite orb_true_iff, IH, prefix_spec. split.
    + intros [[post E]|(pre & post & E)].
      * by exists "", post.
      * exists (String b pre), post. by rewrite E.
    + intros (pre & post & E). destruct pre as [|a pre].
      * left. by exists post.
      * right. exists pre, post. by injection E.
Qed.

Lemma selected_spec category categories w b w' :
  selected category categories w = Returns b w' →
  (b = true ↔ chosen categories category).
Proof.
  destruct categories as [|s|l]; simpl; [done| |]; unfold ret; intros [= <- _].
  - rewrite orb_true_iff, is_substring_spec, bool_decide_eq_true. done.
  - by rewrite bool_decide_eq_true.
Qed.

Lemma NoDup_add_dataset category datasets :
  NoDup datasets → NoDup (add_dataset category datasets).
Proof.
  intros H. unfold add_dataset. case_bool_decide; [done|].
  apply NoDup_app. split_and!; [done| |apply NoDup_singleton].
  by intros x Hx ->%list_elem_of_singleton.
Qed.

Lemma select_group_spec group categories : ∀ datasets w ds w',
  select_group group categories datasets w = Returns ds w' →
  NoDup datasets →
  NoDup ds ∧ ∀ c, c ∈ ds ↔ c ∈ datasets ∨ (c ∈ group ∧ chosen categories c).
Proof.
  induction group as [|category group IH]; intros datasets w ds w' H Hnd; simpl in H.
  - unfold ret in H. injection H as <- _. split; [done|]. intros c. set_solver.
  - bind_inv H. apply selected_spec in H0.
    apply IH in H as [Hnd' Hds].
    + split; [done|]. intros c. rewrite Hds. destruct a.
      * rewrite elem_of_add_dataset, elem_of_cons. naive_solver.
      * rewrite elem_of_cons. split; [naive_solver|].
        intros [?|[[->|?] Hc]]; [by left| |by right].
        apply H0 in Hc. done.
    + destruct a; [by apply NoDup_add_dataset | done].
Qed.

Lemma select_datasets_spec info categories : ∀ datasets w ds w',
  select_datasets info categories datasets w = Returns ds w' →
  NoDup datasets →
  NoDup ds ∧ ∀ c, c ∈ ds ↔ c ∈ datasets ∨ (c ∈ concat info.*2 ∧ chosen categories c).
Proof.
  induction info as [|[key group] info IH]; intros datasets w ds w' H Hnd; simpl in H.
  - unfold ret in H. injection H as <- _. split; [done|]. intros c. simpl. set_solver.
  - bind_inv H. apply select_group_spec in H0 as [Hnd1 H1]; [|done].
    apply IH in H as [Hnd' Hds]; [|done]. split; [done|].
    intros c. rewrite Hds, H1. simpl. rewrite elem_of_app. naive_solver.
Qed.

(** X15.  The datasets of the payload that [_export_request] builds are
    the catalog names that [categories] asks for, each listed once even
    when the catalog has it in several groups.  A list asks for its
    members; a string asks for every name that occurs inside it (the test
    is [category in categories]), and for every name when it is 'all'. *)
Theorem request_datasets parse_datetime srv categories since until w keys w' :
  request_keys parse_datetime srv categories since until w = Returns keys w' →
  ∃ datasets,
    keys !! "datasets" = Some (JDatasets datasets) ∧
    NoDup datasets ∧
    ∀ c, c ∈ datasets ↔ c ∈ concat (categories_doc srv).*2 ∧ chosen categories c.
Proof.
  unfold request_keys. intros H.
  bind_inv H. bind_inv H. bind_inv H. unfold get_info, bind, emit, ret in H2.
  injection H2 as <- <-. bind_inv H.
  apply select_datasets_spec in H2 as [Hnd Hds]; [|constructor].
  unfold ret in H. injection H as <- _.
  exists a1. rewrite lookup_insert_eq. split_and!; [done..|].
  intros c. rewrite Hds. rewrite elem_of_nil. naive_solver.
Qed.

(** ** A refresh that names an unknown dataset *)

(** X16.  When the scan of the saved files succeeds and one of the
    categories is not in the catalog, [refresh] raises the TypeError of
    [_export_request_parallel], which names such a category; by then it has
    sent the catalog request and nothing else, it has submitted no job,
    and it has changed no file. *)
Theorem refresh_unknown_dataset parse_datetime srv fuel until categories save_path w
    export_dict last_rows w1 :
  check_current_files parse_datetime until save_path categories [] ∅ w
    = Returns (export_dict, last_rows) w1 →
  (∃ c, c ∈ categories ∧ c ∉ concat (categories_doc srv).*2) →
  ∃ c0,
    c0 ∈ categories ∧ (c0 ∉ concat (categories_doc srv).*2) ∧
    refresh parse_datetime srv fuel until (CatList categories) save_path w
      = Raises (not_available c0) (record_event GetInfo w1) ∧
    files w1 = files w ∧
    posts (history (record_event GetInfo w1)) = posts (history w) ∧
    requests (history (record_event GetInfo w1)) = S (requests (history w)).
Proof.
  intros Hscan (c & Hc & Hbad).
  pose proof (check_current_files_scanned _ _ _ _ _ _ _ _ _ Hscan) as (Hkeys & _).
  { by intros ? ?%elem_of_nil. }
  { intros ? _. apply lookup_empty. }
  { constructor. }
  simpl in Hkeys.
  destruct (check_available_first parse_datetime (odict_keys export_dict)
              (concat (categories_doc srv).*2) (record_event GetInfo w1))
    as (c0 & before & after & E & _ & H0 & Hr).
  { exists c. split; [|done]. apply Hkeys. by right. }
  exists c0. split_and!.
  - assert (c0 ∈ odict_keys export_dict) as Hin by (rewrite E; set_solver).
    apply Hkeys in Hin as [?%elem_of_nil|?]; done.
  - done.
  - unfold refresh, refresh_list. rewrite (bind_returns _ _ _ _ _ Hscan).
    unfold _export_request_parallel, get_category_names; simpl.
    unfold bind at 1. unfold bind at 1. unfold bind at 1. simpl.
    unfold bind at 1. by rewrite Hr.
  - pose proof (check_current_files_untouched parse_datetime until save_path categories
                  [] ∅ w) as [Hf _]. by rewrite Hscan in Hf.
  - pose proof (adds_check_current_files parse_datetime file_lookup (λ _, I) (λ _, I)
                  until save_path categories [] ∅ w) as Hadds.
    rewrite Hscan in Hadds. simpl in *.
    apply (adds_posts file_lookup); [by intros ? [] | done].
  - pose proof (adds_check_current_files parse_datetime file_lookup (λ _, I) (λ _, I)
                  until save_path categories [] ∅ w) as Hadds.
    rewrite Hscan in Hadds. simpl in *. unfold requests at 1. simpl. f_equal.
    apply (adds_requests file_lookup); [by intros [] | done].
Qed.

(** ** The further properties on sample runs *)

(** X1, witness. *)
Lemma group_names_have_categories_witness :
  "activity" ≠ "all" ∧
  ∃ names,
    get_category_names plain_server "activity" empty_world
      = Returns names (record_event GetInfo empty_world) ∧
    names ⊆ concat (categories_doc plain_server).*2.
Proof.
  assert ("activity" ≠ "all") as H by discriminate.
  split; [exact H|].
  apply (proj1 (proj2 (proj2 (group_names_have_categories plain_server "activity"
                                empty_world H)))).
  by_compute.
Defined.

(** X2, witness: the default [save_path] ends with a separator. *)
Lemma refresh_read_and_write_paths_witness :
  startswith_sep pir = false ∧
  os_path_join data_dir pir +:+ ".csv" = data_dir +:+ pir +:+ ".csv" ∧
  os_path_join "./data" pir +:+ ".csv" ≠ "./data" +:+ pir +:+ ".csv".
Proof.
  assert (startswith_sep pir = false) as H by reflexivity.
  split; [exact H|]. split.
  - apply (proj1 (refresh_read_and_write_paths data_dir pir H)). by right.
  - apply (proj2 (refresh_read_and_write_paths "./data" pir H)); [discriminate|reflexivity].
Defined.

(** X6, witness: one category saved, one not, the first one named twice. *)
Lemma refresh_scan_outcome_witness :
  NoDup (odict_keys [(pir, (Some (DateTs sample_timestamp), None)); (door, no_bounds)]) ∧
  (∀ c, c ∈ odict_keys [(pir, (Some (DateTs sample_timestamp), None)); (door, no_bounds)]
        ↔ c ∈ [pir; door; pir]) ∧
  (∀ c, c ∈ [pir; door; pir] →
     scanned sample_parse (files saved_world) None data_dir c
       (odict_get [(pir, (Some (DateTs sample_timestamp), None)); (door, no_bounds)] c)
       (({[ pir := sample_anchor ]} : gmap string (string * string)) !! c)) ∧
  (∀ c, c ∉ [pir; door; pir] →
     ({[ pir := sample_anchor ]} : gmap string (string * string)) !! c = None).
Proof.
  apply (refresh_scan_outcome sample_parse None data_dir [pir; door; pir] saved_world
           [(pir, (Some (DateTs sample_timestamp), None)); (door, no_bounds)]
           {[ pir := sample_anchor ]}
           (world_of (check_current_files sample_parse None data_dir [pir; door; pir]
                        [] ∅ saved_world))).
  vm_compute. reflexivity.
Defined.

(** X7, witness: the chunk of the dataset that has no saved file. *)
Lemma refresh_without_anchor_appends_nothing_witness :
  ({[ pir := sample_anchor ]} : gmap string (string * string)) !! door = None ∧
  files (world_of (refresh_chunks listing_server data_dir {[ pir := sample_anchor ]} door
                     [door_chunk] saved_world)) = files saved_world ∧
  ∃ e w', refresh_chunks listing_server data_dir {[ pir := sample_anchor ]} door
            [door_chunk] saved_world = Raises e w'.
Proof.
  assert (({[ pir := sample_anchor ]} : gmap string (string * string)) !! door = None)
    as H by reflexivity.
  split; [exact H|].
  destruct (refresh_without_anchor_appends_nothing listing_server data_dir
              {[ pir := sample_anchor ]} door [door_chunk] saved_world H)
    as (H1 & H2 & _).
  split; [exact H1|]. apply H2. left. reflexivity.
Defined.

(** X8, witness: the id of the first job is listed again at the end. *)
Lemma find_output_takes_last_witness :
  find_output (sample_jobs ++ [relisted_job]) "job/00" None
  = Some (job_output relisted_job).
Proof.
  apply (proj1 (find_output_takes_last (sample_jobs ++ [relisted_job]) "job/00" None)
           sample_jobs relisted_job []); [reflexivity | reflexivity | constructor].
Defined.

(** X9, witness: one answer 202, then 200. *)
Lemma export_request_run_witness :
  ∃ w',
    _export_request sample_parse plain_server 2 (CatList [pir]) None None empty_world
      = Returns tt w' ∧
    posts (history w') = S (posts (history empty_world)) ∧
    polls "job/00" (history w') = polls "job/00" (history empty_world) + 1 + 1 ∧
    sleeps (history w') = sleeps (history empty_world) + 1 ∧
    single_failure_reports (history w') =
      single_failure_reports (history empty_world) +
      reports_due plain_server "job/00" (polls "job/00" (history empty_world)) 1 ∧
    files w' = files empty_world.
Proof.
  apply (export_request_run sample_parse plain_server 2 (CatList [pir]) None None
           empty_world pir_keys (record_event GetInfo empty_world) "job/00" 1).
  - vm_compute. reflexivity.
  - reflexivity.
  - split; [|vm_compute; discriminate].
    intros [|k] Hk; [reflexivity|]. vm_compute in Hk. lia.
  - vm_compute. lia.
Defined.

(** X10, witness: the same run. *)
Lemma export_request_returns_final_witness :
  ∃ keys job r,
    content_location plain_server (posts (history empty_world)) keys = Some job ∧
    last_reply job
      (history (world_of (_export_request sample_parse plain_server 2 (CatList [pir])
                            None None empty_world))) = Some r ∧
    reply_status r ≠ 202%Z.
Proof.
  apply (export_request_returns_final sample_parse plain_server 2 (CatList [pir])
           None None empty_world).
  vm_compute. reflexivity.
Defined.


(** X12, witness: two categories, both in the catalog. *)
Lemma export_request_parallel_result_witness :
  Forall (λ c, c ∈ concat (categories_doc plain_server).*2)
    (odict_keys [(pir, no_bounds); (door, no_bounds)]) ∧
  posts (history (world_of (_export_request_parallel sample_parse plain_server 2
                              [(pir, no_bounds); (door, no_bounds)] empty_world)))
  = posts (history empty_world) + length (odict_keys [(pir, no_bounds); (door, no_bounds)]) ∧
  (∀ c, is_Some (({[ pir := "job/00"; door := "job/01" ]} : gmap string string) !! c)
        ↔ c ∈ odict_keys [(pir, no_bounds); (door, no_bounds)]).
Proof.
  apply (export_request_parallel_result sample_parse plain_server 2
           [(pir, no_bounds); (door, no_bounds)] empty_world
           {[ pir := "job/00"; door := "job/01" ]}
           (world_of (_export_request_parallel sample_parse plain_server 2
                        [(pir, no_bounds); (door, no_bounds)] empty_world))).
  vm_compute. reflexivity.
Defined.



(** X15, witness: the two dataset names inside one string. *)
Lemma request_datasets_witness :
  ∃ datasets,
    pir_keys !! "datasets" = Some (JDatasets datasets) ∧
    NoDup datasets ∧
    ∀ c, c ∈ datasets ↔
         c ∈ concat (categories_doc plain_server).*2 ∧
         chosen (CatStr "my raw_activity_pir data") c.
Proof.
  apply (request_datasets sample_parse plain_server (CatStr "my raw_activity_pir data")
           None None empty_world pir_keys (record_event GetInfo empty_world)).
  vm_compute. reflexivity.
Defined.

(** X16, witness: a saved dataset and a misspelt one. *)
Lemma refresh_unknown_dataset_witness :
  ∃ c0,
    c0 ∈ [pir; "raw_door"] ∧ (c0 ∉ concat (categories_doc plain_server).*2) ∧
    refresh sample_parse plain_server 2 None (CatList [pir; "raw_door"]) data_dir saved_world
      = Raises (not_available c0)
          (record_event GetInfo
             (world_of (check_current_files sample_parse None data_dir [pir; "raw_door"]
                          [] ∅ saved_world))) ∧
    files (world_of (check_current_files sample_parse None data_dir [pir; "raw_door"]
                       [] ∅ saved_world)) = files saved_world ∧
    posts (history (record_event GetInfo
                      (world_of (check_current_files sample_parse None data_dir
                                   [pir; "raw_door"] [] ∅ saved_world))))
    = posts (history saved_world) ∧
    requests (history (record_event GetInfo
                         (world_of (check_current_files sample_parse None data_dir
                                      [pir; "raw_door"] [] ∅ saved_world))))
    = S (requests (history saved_world)).
Proof.
  eapply (refresh_unknown_dataset sample_parse plain_server 2 None [pir; "raw_door"]
            data_dir saved_world).
  - vm_compute. reflexivity.
  - exists "raw_door". split; by_compute.
Defined.

(** ** The content of the files after a download *)








(** The file of that witness: one column line, the rows of both chunks. *)
Lemma export_records_content_sample :
  written (files empty_world !! (data_dir +:+ pir +:+ ".csv"))
    (chunks_for plain_server data_dir (data_dir +:+ pir +:+ ".csv")
       [first_chunk; second_chunk])
  = Some [ header_line;
           ["2021-10-06T00:00:00.000Z"; "42"; "1"];
           ["2021-10-07T00:00:00.000Z"; "43"; "0"];
           ["2021-10-01T00:00:00.000Z"; "7"; "1"] ].
Proof. vm_compute. reflexivity. Qed.


(** The file of that witness: the saved lines and the one new row. *)
Lemma refresh_chunks_content_sample :
  written (files saved_world !! (data_dir +:+ pir +:+ ".csv"))
    (merged_text sample_anchor <$> retrieved listing_server [first_chunk])
  = Some (pir_file ++ [["2021-10-07T00:00:00.000Z"; "43"; "0"]]).
Proof. vm_compute. reflexivity. Qed.

